(** * react-cmp-selector: [getCmpByAttr]

    A shallow embedding of [src/GetCmpByAttr.tsx] together with the React 18
    primitives it calls ([React.Children.toArray], [isValidElement],
    [cloneElement], [useMemo]) and [console].

    JavaScript objects live in a store; a reference is an index into it.
    Programs are store-passing functions that may throw. *)

From Stdlib Require Import ZArith Ascii String.
From stdpp Require Import base option strings gmap list pretty.

Local Open Scope string_scope.
Local Open Scope list_scope.
Set Warnings "-register-all".

(** ** The host: JavaScript values, the object store, React 18

    React is not part of the repository. Its functions are written after
    the production build of React 18 ([ReactChildren.js], [ReactElement.js],
    [ReactFiberHooks.js]); development-only warnings are left out. *)

Module React.

(** A reference to an object of the store. *)
Abbreviation loc := nat (only parsing).

(** JavaScript values: plain data and references. Numbers are kept as
    integers: the program only moves them around and compares them with
    strings. Symbols and BigInts are left out, and objects have data
    properties only (no getters, no proxies). [VBuiltin name] is the member
    [name] of [Object.prototype], which a plain object inherits: a built-in
    function, or [Object.prototype] itself under the name [__proto__]. *)
Inductive val :=
  | VUndefined
  | VNull
  | VBool (b : bool)
  | VNum (n : Z)
  | VStr (s : string)
  | VRef (l : loc)
  | VBuiltin (name : string).

#[global] Instance val_eq_dec : EqDecision val.
Proof. solve_decision. Defined.

(** [ReactNode]: a primitive, a reference to an element or a portal, or an
    array of nodes. An array is an object of the store, at the address [l];
    the program only reads arrays, so a node carries the items with the
    address, and [well_formed] below says that the store agrees. *)
Inductive node :=
  | Leaf (v : val)
  | Arr (l : loc) (xs : list node).

(** The JavaScript value a node is: the array itself for an array. *)
Definition ident (n : node) : val :=
  match n with
  | Leaf v => v
  | Arr l _ => VRef l
  end.

(** A React element: [{ $$typeof: REACT_ELEMENT_TYPE, type, key, ref, props }].
    [props] is a reference: re-keyed copies of an element share its props
    object. *)
Record element := ReactElement {
  type : val;
  key : option string;
  ref : val;
  props : loc;
}.

#[global] Instance element_eq_dec : EqDecision element.
Proof. solve_decision. Defined.

(** What a reference can point to: a plain object (its own enumerable
    string-keyed properties), a React element, a portal, or an array. A
    plain object has [Object.prototype] for prototype. A component, the
    [type] of an element that is not a host tag, is kept as a plain object
    too, with the properties that are read through it. *)
Inductive obj :=
  | OObject (fields : gmap string val)
  | OElement (e : element)
  | OPortal (k : option string)
  | OArray (items : list val).

(** What [console] has printed. *)
Inductive entry :=
  | Log (msg : string) (arg : val)
  | Warn (msg : string).

(** The store, the console, and the cell of the one [useMemo] hook of the
    call site: the cached value with the dependency array it was computed
    for. The store holds the objects the statements speak of: elements,
    props objects, components, portals and the arrays of children. The
    array [toArray] returns, the dependency array, the function passed to
    [useMemo] and the records React keeps for its hooks are values of the
    embedding, not objects of the store. *)
Record world := World {
  heap : list obj;
  console : list entry;
  memoizedState : option (val * list node);
}.

(** What is thrown: the kind of error, with the words its message starts
    with (React completes the message, and shortens it in production). *)
Inductive exn :=
  | TypeError (msg : string)
  | Error (msg : string).

Inductive outcome (A : Type) :=
  | Ok (a : A) (w : world)
  | Throw (e : exn).
Arguments Ok {A} a w.
Arguments Throw {A} e.

Definition M (A : Type) : Type := world → outcome A.

Definition ret {A} (a : A) : M A := λ w, Ok a w.

Definition bind {A B} (c : M A) (k : A → M B) : M B :=
  λ w, match c w with
       | Ok a w' => k a w'
       | Throw e => Throw e
       end.

Definition throw {A} (e : exn) : M A := λ _, Throw e.

Notation "'let*' x ':=' c 'in' k" := (bind c (λ x, k))
  (at level 10, x binder, c at level 100, k at level 200,
   format "'[v' 'let*'  x  ':='  c  'in' '/' k ']'").
Notation "c ';;' k" := (bind c (λ _, k))
  (at level 100, k at level 200, right associativity).

Definition set_heap (h : list obj) (w : world) : world :=
  World h (console w) (memoizedState w).

(** [new]: the fresh reference is the next free index. *)
Definition alloc (o : obj) : M loc :=
  λ w, Ok (length (heap w)) (set_heap (heap w ++ [o]) w).

Definition read_element (l : loc) : M element :=
  λ w, match heap w !! l with
       | Some (OElement e) => Ok e w
       | _ => Throw (TypeError "not a React element")
       end.

(** Reading the properties of a plain object; reading properties of
    something that is not one is [undefined.x]. *)
Definition read_object (l : loc) : M (gmap string val) :=
  λ w, match heap w !! l with
       | Some (OObject m) => Ok m w
       | _ => Throw (TypeError "Cannot read properties of undefined")
       end.

(** [o[k] = v] on the plain object at [l]. Under the name [__proto__] an
    object that has no such property of its own runs the setter it
    inherits, which adds no property; the prototype the setter installs is
    not recorded. *)
Definition set_property (l : loc) (k : string) (v : val) : M unit :=
  λ w, match heap w !! l with
       | Some (OObject m) =>
           if bool_decide (k = "__proto__") && bool_decide (m !! k = None)
           then Ok tt w
           else Ok tt (set_heap (<[l := OObject (<[k := v]> m)]> (heap w)) w)
       | _ => Throw (TypeError "Cannot set properties of undefined")
       end.

(** The names [Object.prototype] defines. *)
Definition Object_prototype : list string :=
  ["constructor"; "hasOwnProperty"; "isPrototypeOf"; "propertyIsEnumerable";
   "toLocaleString"; "toString"; "valueOf"; "__proto__";
   "__defineGetter__"; "__defineSetter__"; "__lookupGetter__";
   "__lookupSetter__"].

(** [o[k]] on a plain object with the properties [m]: its own property, the
    member of [Object.prototype] otherwise, [undefined] when there is
    none. *)
Definition Get (m : gmap string val) (k : string) : val :=
  match m !! k with
  | Some v => v
  | None => if bool_decide (k ∈ Object_prototype) then VBuiltin k else VUndefined
  end.

(** [a === b] *)
Definition strict_equals (a b : val) : bool := bool_decide (a = b).

(** ['' + v] where it is a matter of the value alone: on [undefined],
    [null], a boolean, a string, and a number below [1e21] in magnitude,
    which prints its digits. From [1e21] on a number prints with an
    exponent, and an object is converted by the [toString] and [valueOf] it
    has or inherits (an array joins its items; without a callable one of
    the two the conversion throws): this is not followed, such a value
    prints as a plain object or a built-in function does, and the
    statements on the key of the result say when they rely on it (see
    [printable] below). *)
Definition ToString (v : val) : string :=
  match v with
  | VUndefined => "undefined"
  | VNull => "null"
  | VBool true => "true"
  | VBool false => "false"
  | VNum n => pretty n
  | VStr s => s
  | VRef _ => "[object Object]"
  | VBuiltin name =>
      if bool_decide (name = "__proto__") then "[object Object]"
      else "function " +:+ name +:+ "() { [native code] }"
  end.

(** A value that is not an object: its conversion to a string runs no
    method and cannot throw. *)
Definition primitive (v : val) : bool :=
  match v with
  | VRef _ | VBuiltin _ => false
  | _ => true
  end.


(** [console.log(msg, arg)] and [console.warn(msg)] *)
Definition console_log (msg : string) (arg : val) : M unit :=
  λ w, Ok tt (World (heap w) (console w ++ [Log msg arg]) (memoizedState w)).

Definition console_warn (msg : string) : M unit :=
  λ w, Ok tt (World (heap w) (console w ++ [Warn msg]) (memoizedState w)).

(** [isValidElement(object)]:
    [typeof object === 'object' && object !== null &&
     object.$$typeof === REACT_ELEMENT_TYPE] *)
Definition isValidElement (v : val) : M bool :=
  λ w, match v with
       | VRef l => match heap w !! l with
                   | Some (OElement _) => Ok true w
                   | _ => Ok false w
                   end
       | _ => Ok false w
       end.

(** *** [React.Children.toArray] *)

Module Children.

(** [key.replace(/[=:]/g, ...)] with [= ↦ =0] and [: ↦ =2], after a [$]. *)
Fixpoint escape_chars (s : string) : string :=
  match s with
  | EmptyString => EmptyString
  | String c rest =>
      if Ascii.eqb c "="%char then String "="%char (String "0"%char (escape_chars rest))
      else if Ascii.eqb c ":"%char then String "="%char (String "2"%char (escape_chars rest))
      else String c (escape_chars rest)
  end.

Definition escape (k : string) : string := "$" +:+ escape_chars k.

Definition digit36 (d : nat) : ascii :=
  nth d (list_ascii_of_string "0123456789abcdefghijklmnopqrstuvwxyz") "0"%char.

Fixpoint toString36_go (fuel n : nat) (acc : string) : string :=
  match fuel with
  | O => acc
  | S fuel' =>
      let acc' := String (digit36 (n mod 36)) acc in
      if (n / 36 =? 0)%nat then acc' else toString36_go fuel' (n / 36) acc'
  end.

(** [index.toString(36)] *)
Definition toString36 (n : nat) : string := toString36_go (S n) n "".

(** [getElementKey(element, index)]: the escaped explicit key of an object
    that has one, the index in base 36 otherwise. *)
Definition getElementKey (h : list obj) (child : node) (index : nat) : string :=
  match child with
  | Leaf (VRef l) =>
      match h !! l with
      | Some (OElement e) =>
          match key e with Some k => escape k | None => toString36 index end
      | Some (OPortal (Some k)) => escape k
      | Some (OObject m) =>
          match Get m "key" with
          | VUndefined | VNull => toString36 index
          | v => escape (ToString v)
          end
      | _ => toString36 index
      end
  | _ => toString36 index
  end.

(** [cloneAndReplaceKey(oldElement, newKey)]: a new element object on the
    same props object. *)
Definition cloneAndReplaceKey (e : element) (newKey : string) : M loc :=
  alloc (OElement (ReactElement (type e) (Some newKey) (ref e) (props e))).

(** [mapIntoArray(children, array, '', nameSoFar, child => child)]. The
    values pushed on [array] are returned, in the order they are pushed. *)
Fixpoint mapIntoArray (children : node) (nameSoFar : string) : M (list val) :=
  match children with
  | Leaf VUndefined | Leaf VNull | Leaf (VBool _) => ret []
  | Leaf (VStr s) => ret [VStr s]
  | Leaf (VNum n) => ret [VNum n]
  | Leaf (VBuiltin name) =>
      (* a function is passed over; [Object.prototype] is an object *)
      if bool_decide (name = "__proto__")
      then throw (Error "Objects are not valid as a React child")
      else ret []
  | Leaf (VRef l) =>
      (* an element or a portal; an array comes as an [Arr] node *)
      λ w, match heap w !! l with
           | Some (OElement e) =>
               let childKey :=
                 if decide (nameSoFar = "")
                 then "." +:+ getElementKey (heap w) children 0
                 else nameSoFar in
               (let* l' := cloneAndReplaceKey e childKey in ret [VRef l']) w
           | Some (OPortal _) => Ok [VRef l] w
           | _ => Throw (Error "Objects are not valid as a React child")
           end
  | Arr _ xs =>
      let nextNamePrefix :=
        if decide (nameSoFar = "") then "." else nameSoFar +:+ ":" in
      (fix each (xs : list node) (i : nat) : M (list val) :=
         match xs with
         | [] => ret []
         | child :: rest =>
             λ w,
               let nextName := nextNamePrefix +:+ getElementKey (heap w) child i in
               (let* pushed := mapIntoArray child nextName in
                let* more := each rest (S i) in
                ret (pushed ++ more)) w
         end) xs 0%nat
  end.

(** [toArray(children)]: [mapChildren(children, child => child) || []] *)
Definition toArray (children : node) : M (list val) :=
  match children with
  | Leaf VUndefined | Leaf VNull => ret []
  | _ => mapIntoArray children ""
  end.

End Children.

(** *** [cloneElement] *)

Definition RESERVED_PROPS : list string := ["key"; "ref"; "__self"; "__source"].

Definition reserved (propName : string) : bool :=
  bool_decide (propName ∈ RESERVED_PROPS).

(** [config.ref !== undefined] and [config.key !== undefined] *)
Definition hasValidRef (config : gmap string val) : bool :=
  negb (strict_equals (Get config "ref") VUndefined).

Definition hasValidKey (config : gmap string val) : bool :=
  negb (strict_equals (Get config "key") VUndefined).

(** [Object.assign(target, source)] onto the plain object at [target]. *)
Definition assign (target : loc) (source : gmap string val) : M unit :=
  map_fold (λ k v done, done;; set_property target k v) (ret tt) source.

(** Truthiness, as [if (v)] and [&&] test it. *)
Definition ToBoolean (v : val) : bool :=
  match v with
  | VUndefined | VNull => false
  | VBool b => b
  | VNum n => negb (n =? 0)%Z
  | VStr s => negb (bool_decide (s = ""))
  | VRef _ | VBuiltin _ => true
  end.

(** [type.defaultProps]: a property of a component; a host tag, a string,
    has none. *)
Definition type_defaultProps (h : list obj) (type : val) : val :=
  match type with
  | VRef t => match h !! t with
              | Some (OObject m) => Get m "defaultProps"
              | _ => VUndefined
              end
  | _ => VUndefined
  end.

(** [let defaultProps;
     if (element.type && element.type.defaultProps)
       defaultProps = element.type.defaultProps]
    with the properties of the object found, which is a plain object when a
    component declares one; anything else is read as an empty one. *)
Definition defaultProps_of (h : list obj) (type : val)
    : option (gmap string val) :=
  let defaultProps := type_defaultProps h type in
  if ToBoolean type && ToBoolean defaultProps then
    Some (match defaultProps with
          | VRef d => match h !! d with Some (OObject dp) => dp | _ => ∅ end
          | _ => ∅
          end)
  else None.

Definition read_defaultProps (type : val) : M (option (gmap string val)) :=
  λ w, Ok (defaultProps_of (heap w) type) w.

(** [for (propName in config)
       if (hasOwnProperty.call(config, propName) &&
           !RESERVED_PROPS.hasOwnProperty(propName))
         if (config[propName] === undefined && defaultProps !== undefined)
           props[propName] = defaultProps[propName]
         else
           props[propName] = config[propName]] *)
Definition override (target : loc) (config : gmap string val)
    (defaultProps : option (gmap string val)) : M unit :=
  map_fold (λ propName v done,
              done;;
              if reserved propName then ret tt
              else match defaultProps with
                   | Some dp =>
                       if strict_equals v VUndefined
                       then set_property target propName (Get dp propName)
                       else set_property target propName v
                   | None => set_property target propName v
                   end)
           (ret tt) config.

(** [cloneElement(element, config)] with no children argument. The
    argument is typed [ReactElement]; React throws on [null] and
    [undefined]. *)
Definition cloneElement (element : val) (config : loc) : M val :=
  let* e := match element with
            | VRef l => read_element l
            | _ => throw (Error "React.cloneElement(...): The argument must be a React element")
            end in
  let* old := read_object (props e) in
  let* p := alloc (OObject ∅) in
  assign p old;;
  let* cfg := read_object config in
  let ref' := if hasValidRef cfg then Get cfg "ref" else ref e in
  let key' := if hasValidKey cfg then Some (ToString (Get cfg "key")) else key e in
  let* defaultProps := read_defaultProps (type e) in
  override p cfg defaultProps;;
  let* r := alloc (OElement (ReactElement (type e) key' ref' p)) in
  ret (VRef r).

(** *** [useMemo] *)

(** [Object.is] on a dependency: the same primitive, or the same object. *)
Definition Object_is (a b : node) : bool := bool_decide (ident a = ident b).

(** [areHookInputsEqual(nextDeps, prevDeps)]: compares up to the shorter
    length. *)
Fixpoint areHookInputsEqual (nextDeps prevDeps : list node) : bool :=
  match nextDeps, prevDeps with
  | n :: ns, p :: ps => Object_is n p && areHookInputsEqual ns ps
  | _, _ => true
  end.

(** [useMemo(create, deps)]: the cached value while the dependencies are
    the same, a new call of [create] otherwise (and on mount). *)
Definition useMemo (create : M val) (deps : list node) : M val :=
  λ w, match memoizedState w with
       | Some (cached, prevDeps) =>
           if areHookInputsEqual deps prevDeps then Ok cached w
           else match create w with
                | Ok v w' => Ok v (World (heap w') (console w') (Some (v, deps)))
                | Throw e => Throw e
                end
       | None =>
           match create w with
           | Ok v w' => Ok v (World (heap w') (console w') (Some (v, deps)))
           | Throw e => Throw e
           end
       end.

(** [array.find(predicate)]: the first value the predicate accepts,
    [undefined] when it accepts none. *)
Fixpoint find (predicate : val → M bool) (array : list val) : M val :=
  match array with
  | [] => ret VUndefined
  | x :: rest =>
      let* b := predicate x in
      if b : bool then ret x else find predicate rest
  end.

End React.

Import React.

(** ** [src/GetCmpByAttr.tsx] *)

(** [interface GetCmpByAttrProps]; an optional field is [None] when it is
    omitted (or [undefined]). *)
Record GetCmpByAttrProps := {
  children : node;
  attr : option string;
  value : option string;
  props : option loc;
  debug : option bool;
}.

(** The predicate of [find]:
    [isValidElement(cmp) && cmp.props[attr] === value] *)
Definition matches (attr value : string) (cmp : val) : M bool :=
  let* valid := isValidElement cmp in
  if valid : bool then
    match cmp with
    | VRef l =>
        let* e := read_element l in
        let* p := read_object (React.props e) in
        ret (strict_equals (Get p attr) (VStr value))
    | _ => ret false
    end
  else ret false.

(** The function passed to [useMemo]. *)
Definition create (children : node) (attr value : string) (props : loc)
    (debug : bool) : M val :=
  let* componentsArray := Children.toArray children in
  let* matchedComponent := find (matches attr value) componentsArray in
  if ToBoolean matchedComponent then
    (if debug
     then console_log "Found component with matching props:" matchedComponent
     else ret tt);;
    cloneElement matchedComponent props
  else
    (if debug
     then console_warn ("No component found with attr " +:+ attr +:+
                        " and value " +:+ value)
     else ret tt);;
    ret VNull.

Definition getCmpByAttr (a : GetCmpByAttrProps) : M val :=
  let attr := default "data-slot" (attr a) in
  let value := default "" (value a) in
  let* props := match props a with
                | Some l => ret l
                | None => alloc (OObject ∅)
                end in
  let debug := default false (debug a) in
  useMemo (create (children a) attr value props debug)
          [children a; Leaf (VStr attr); Leaf (VStr value);
           Leaf (VRef props); Leaf (VBool debug)].

(** ** Vocabulary of the statements *)

(** The element a value refers to, and the property mapping of an element. *)
Definition as_element (h : list obj) (v : val) : option element :=
  match v with
  | VRef l => match h !! l with Some (OElement e) => Some e | _ => None end
  | _ => None
  end.

Definition props_of (h : list obj) (e : element) : option (gmap string val) :=
  match h !! React.props e with Some (OObject m) => Some m | _ => None end.

(** A node matches when it is a valid element whose property mapping has
    [attr] with exactly the string [value]. *)
Definition node_matches (h : list obj) (attr value : string) (v : val) : bool :=
  match as_element h v with
  | Some e => match props_of h e with
              | Some m => bool_decide (m !! attr = Some (VStr value))
              | None => false
              end
  | None => false
  end.

(** A reference is to an object of the store. *)
Definition resolves (h : list obj) (v : val) : bool :=
  match v with
  | VRef l => bool_decide (is_Some (h !! l))
  | _ => true
  end.

(** The type of an element: a component and its [defaultProps], when they
    are objects, are objects of the store. *)
Definition valid_type (h : list obj) (type : val) : bool :=
  resolves h type && resolves h (type_defaultProps h type).

(** The children a caller can pass: every object among them is a React
    element (with its props object and its type), a portal, or an array of
    such children whose items are the ones the store has at its address. *)
Definition valid_child (h : list obj) (v : val) : bool :=
  match v with
  | VRef l => match h !! l with
              | Some (OElement e) =>
                  bool_decide (is_Some (props_of h e)) && valid_type h (type e)
              | Some (OPortal _) => true
              | _ => false
              end
  | VBuiltin _ => false
  | _ => true
  end.

Fixpoint well_formed (h : list obj) (n : node) : bool :=
  match n with
  | Leaf v => valid_child h v
  | Arr l xs =>
      match h !! l with
      | Some (OArray items) => bool_decide (items = map ident xs)
      | _ => false
      end
      && forallb (well_formed h) xs
  end.

(** [extraProps], when given, is a plain object. *)
Definition valid_props (h : list obj) (p : option loc) : bool :=
  match p with
  | Some l => match h !! l with Some (OObject _) => true | _ => false end
  | None => true
  end.

(** A call of the declared types: [children] a [ReactNode], [props] a
    [Record<string, any>] when given. *)
Definition well_formed_call (h : list obj) (a : GetCmpByAttrProps) : bool :=
  well_formed h (children a) && valid_props h (props a).

(** The children in declaration order, nested arrays flattened and empty
    nodes dropped, each with the key [toArray] computes for it. *)
Fixpoint flattened_from (h : list obj) (children : node) (nameSoFar : string)
    : list (val * string) :=
  let childKey :=
    if decide (nameSoFar = "")
    then "." +:+ Children.getElementKey h children 0
    else nameSoFar in
  match children with
  | Leaf VUndefined | Leaf VNull | Leaf (VBool _) => []
  | Leaf v => [(v, childKey)]
  | Arr _ xs =>
      let nextNamePrefix :=
        if decide (nameSoFar = "") then "." else nameSoFar +:+ ":" in
      (fix each (xs : list node) (i : nat) : list (val * string) :=
         match xs with
         | [] => []
         | child :: rest =>
             flattened_from h child
               (nextNamePrefix +:+ Children.getElementKey h child i)
             ++ each rest (S i)
         end) xs 0%nat
  end.

Definition flattened (h : list obj) (children : node) : list (val * string) :=
  flattened_from h children "".

(** What is known of an element by looking at it: its fields and the
    content of its props object. *)
Record snapshot := Snapshot {
  s_type : val;
  s_key : option string;
  s_ref : val;
  s_props : gmap string val;
}.

#[global] Instance snapshot_eq_dec : EqDecision snapshot.
Proof. solve_decision. Defined.

Definition view (h : list obj) (v : val) : option snapshot :=
  match as_element h v with
  | Some e => match props_of h e with
              | Some m => Some (Snapshot (type e) (key e) (ref e) m)
              | None => None
              end
  | None => None
  end.

(** What [cloneElement] writes for the entry [x] of [config] under [name]:
    the entry, or the default of the component when the entry is
    [undefined] and the component has [defaultProps]. *)
Definition resolved (defaultProps : option (gmap string val)) (name : string)
    (x : val) : val :=
  match defaultProps with
  | Some dp => if strict_equals x VUndefined then Get dp name else x
  | None => x
  end.

(** The entries of [config] that become properties of the clone. *)
Definition written (defaultProps : option (gmap string val)) (name : string)
    (x : val) : option val :=
  if reserved name || bool_decide (name = "__proto__") then None
  else Some (resolved defaultProps name x).

(** The properties of a clone: the non-reserved entries of [config], with
    the defaults of the component for the [undefined] ones, on top of the
    old properties. A write under [__proto__] adds no property. *)
Definition merged (config old : gmap string val)
    (defaultProps : option (gmap string val)) : gmap string val :=
  map_imap (written defaultProps) config ∪ delete "__proto__" old.

(** The content of [cloneElement(m, config)] where [m] is the copy of [e]
    that [toArray] made under the key [k], and [defaultProps] the defaults
    of the type of [e]. *)
Definition clone_snapshot (e : element) (k : string)
    (old config : gmap string val) (defaultProps : option (gmap string val))
    : snapshot :=
  Snapshot (type e)
    (if hasValidKey config then Some (ToString (Get config "key")) else Some k)
    (if hasValidRef config then Get config "ref" else ref e)
    (merged config old defaultProps).

Definition first_match (h : list obj) (attr value : string)
    (xs : list (val * string)) : option (val * string) :=
  List.find (λ x, node_matches h attr value x.1) xs.

(** The content of the element the call is to return; [None] when no child
    matches. *)
Definition expected (h : list obj) (children : node) (attr value : string)
    (config : loc) : option snapshot :=
  match first_match h attr value (flattened h children) with
  | Some (v, k) =>
      match as_element h v with
      | Some e =>
          match props_of h e, h !! config with
          | Some old, Some (OObject cfg) =>
              Some (clone_snapshot e k old cfg (defaultProps_of h (type e)))
          | _, _ => None
          end
      | None => None
      end
  | None => None
  end.

(** The children that reach the search, without their keys. *)
Definition child_refs (h : list obj) (children : node) : list val :=
  (flattened h children).*1.

(** Declaration order: the nodes from left to right, arrays opened in
    place, [undefined], [null] and booleans left out. *)
Fixpoint leaves (n : node) : list val :=
  match n with
  | Leaf VUndefined | Leaf VNull | Leaf (VBool _) => []
  | Leaf v => [v]
  | Arr _ xs => flat_map leaves xs
  end.

(** [v] answers the call with these dependencies in the store [h]: it is
    [null] when nothing matches, and otherwise an element with the expected
    content that is none of the children. *)
Definition answers (h : list obj) (children : node) (attr value : string)
    (config : loc) (v : val) : bool :=
  match expected h children attr value config with
  | None => bool_decide (v = VNull)
  | Some s =>
      match v with
      | VRef r => bool_decide (view h v = Some s)
                  && bool_decide (v ∉ child_refs h children)
      | _ => false
      end
  end.

(** The cell of the hook is empty, or holds an answer to the dependencies
    it was filled for. This is what a call leaves behind. *)
Definition memo_ok (w : world) : bool :=
  match memoizedState w with
  | None => true
  | Some (cached, [c; Leaf (VStr a); Leaf (VStr v); Leaf (VRef p); Leaf (VBool d)]) =>
      well_formed (heap w) c && valid_props (heap w) (Some p)
      && answers (heap w) c a v p cached
  | Some _ => false
  end.

(** The dependency array a call builds, and whether the hook finds it
    unchanged. *)
Definition props_ref (a : GetCmpByAttrProps) (w : world) : loc :=
  default (length (heap w)) (props a).

Definition deps_of (a : GetCmpByAttrProps) (w : world) : list node :=
  [children a; Leaf (VStr (default "data-slot" (attr a)));
   Leaf (VStr (default "" (value a))); Leaf (VRef (props_ref a w));
   Leaf (VBool (default false (debug a)))].

Definition memo_hit (a : GetCmpByAttrProps) (w : world) : bool :=
  match memoizedState w with
  | Some (_, prevDeps) => areHookInputsEqual (deps_of a w) prevDeps
  | None => false
  end.

(** The extra properties of a call: none when [props] is omitted. *)
Definition config_of (h : list obj) (a : GetCmpByAttrProps) : gmap string val :=
  match props a with
  | Some l => match h !! l with Some (OObject m) => m | _ => ∅ end
  | None => ∅
  end.

(** The work of [toArray] on the flattened children, as data: the copy it
    makes of an element, the objects it allocates, and the array it returns
    when the store has [base] objects. *)
Definition rekeyed (e : element) (k : string) : element :=
  ReactElement (type e) (Some k) (ref e) (React.props e).

Fixpoint copies (h : list obj) (xs : list (val * string)) : list obj :=
  match xs with
  | [] => []
  | (v, k) :: rest =>
      match as_element h v with
      | Some e => OElement (rekeyed e k) :: copies h rest
      | None => copies h rest
      end
  end.

Fixpoint items (h : list obj) (xs : list (val * string)) (base : nat) : list val :=
  match xs with
  | [] => []
  | (v, k) :: rest =>
      match as_element h v with
      | Some e => VRef base :: items h rest (S base)
      | None => v :: items h rest base
      end
  end.

(** The item [find] stops at. *)
Fixpoint found (h : list obj) (attr value : string) (xs : list (val * string))
    (base : nat) : val :=
  match xs with
  | [] => VUndefined
  | (v, k) :: rest =>
      match as_element h v with
      | Some e => if node_matches h attr value v then VRef base
                  else found h attr value rest (S base)
      | None => found h attr value rest base
      end
  end.

(** The loop of [mapIntoArray] over an array, and of [flattened_from]. *)
Fixpoint mapIntoArray_each (nextNamePrefix : string) (xs : list node) (i : nat)
    : M (list val) :=
  match xs with
  | [] => ret []
  | child :: rest =>
      λ w,
        let nextName := nextNamePrefix +:+ Children.getElementKey (heap w) child i in
        (let* pushed := Children.mapIntoArray child nextName in
         let* more := mapIntoArray_each nextNamePrefix rest (S i) in
         ret (pushed ++ more)) w
  end.

Fixpoint flattened_each (h : list obj) (nextNamePrefix : string)
    (xs : list node) (i : nat) : list (val * string) :=
  match xs with
  | [] => []
  | child :: rest =>
      flattened_from h child (nextNamePrefix +:+ Children.getElementKey h child i)
      ++ flattened_each h nextNamePrefix rest (S i)
  end.

Definition next_prefix (nameSoFar : string) : string :=
  if decide (nameSoFar = "") then "." else nameSoFar +:+ ":".

(** The element object [cloneElement] builds from [e] on the props object [p]. *)
Definition cloned (e : element) (cfg : gmap string val) (p : loc) : element :=
  ReactElement (type e)
    (if hasValidKey cfg then Some (ToString (Get cfg "key")) else key e)
    (if hasValidRef cfg then Get cfg "ref" else ref e)
    p.

(** The message of the warning, and what a call that recomputes prints
    when [debug] is set: the warning when it returns [null], the matched
    component otherwise. *)
Definition not_found (attr value : string) : string :=
  "No component found with attr " +:+ attr +:+ " and value " +:+ value.

Definition logged (attr value : string) (v : val) (es : list entry) : Prop :=
  match v with
  | VNull => es = [Warn (not_found attr value)]
  | _ => ∃ m, es = [Log "Found component with matching props:" (VRef m)]
  end.

(** The content of the clone of the first matching child, from the content
    [cfg] of the extra properties. *)
Definition result_of (h : list obj) (children : node) (attr value : string)
    (cfg : gmap string val) : option snapshot :=
  match first_match h attr value (flattened h children) with
  | Some (v, k) =>
      match as_element h v with
      | Some e =>
          match props_of h e with
          | Some old =>
              Some (clone_snapshot e k old cfg (defaultProps_of h (type e)))
          | None => None
          end
      | None => None
      end
  | None => None
  end.





(** The [key] entry of the extra properties, if there is one, is a
    primitive, which ['' + key] turns into a string without running a
    method of it. *)
Definition primitive_key (config : gmap string val) : bool :=
  match config !! "key" with
  | Some v => primitive v
  | None => true
  end.


(** Two results with the same content. *)
Definition same_content (h1 : list obj) (v1 : val) (h2 : list obj) (v2 : val) : Prop :=
  (v1 = VNull ↔ v2 = VNull) ∧ view h1 v1 = view h2 v2.

(** No node of the list matches. *)
Definition none_match (h : list obj) (attr value : string)
    (xs : list (val * string)) : bool :=
  forallb (λ y, negb (node_matches h attr value y.1)) xs.

(** The same call with another [debug]. *)
Definition with_debug (a : GetCmpByAttrProps) (d : option bool) : GetCmpByAttrProps :=
  {| children := children a; attr := attr a; value := value a;
     props := props a; debug := d |}.



(** ** A page to run the function on

    Three [div]s marked header, body and footer, a [span] also marked
    header, a portal, an element whose [data-slot] is the empty string,
    three objects to pass as extra properties, and the arrays of children. *)
Definition slot_element (tag slot : string) (p : loc) : list obj :=
  [OObject {[ "data-slot" := VStr slot ]};
   OElement (ReactElement (VStr tag) None VNull p)].

Definition page_heap : list obj :=
  slot_element "div" "header" 0 ++ slot_element "div" "body" 2
  ++ slot_element "div" "footer" 4 ++ slot_element "span" "header" 6
  ++ [OPortal None;
      OObject {[ "className" := VStr "x" ]};
      OObject {[ "key" := VStr "x" ]};
      OObject (<[ "data-slot" := VStr "moved" ]> {[ "className" := VStr "x" ]})]
  ++ slot_element "div" "" 12
  ++ [OArray [VRef 5; VRef 7];
      OArray [VRef 1; VStr "text"; VRef 3; VNull; VRef 14; VRef 8; VNum 7;
              VBool true; VRef 13];
      OArray [VRef 1; VRef 3; VRef 5];
      OArray [VRef 1; VRef 9]].

Definition page : world := World page_heap [] None.

Definition page_children : node :=
  Arr 15 [Leaf (VRef 1); Leaf (VStr "text"); Leaf (VRef 3); Leaf VNull;
       Arr 14 [Leaf (VRef 5); Leaf (VRef 7)];
       Leaf (VRef 8); Leaf (VNum 7); Leaf (VBool true); Leaf (VRef 13)].

Definition select (value : option string) (props : option loc)
    (debug : option bool) : GetCmpByAttrProps :=
  {| children := page_children; attr := None; value := value;
     props := props; debug := debug |}.

(** The world a call leaves behind ([page] itself if it throws). *)
Definition after (a : GetCmpByAttrProps) (w : world) : world :=
  match getCmpByAttr a w with
  | Ok _ w' => w'
  | Throw _ => w
  end.

(** The three children of the examples of the specification, and the
    content of what a call returns. *)
Definition three_slots : node :=
  Arr 16 [Leaf (VRef 1); Leaf (VRef 3); Leaf (VRef 5)].

Definition content_of (o : outcome val) : option snapshot :=
  match o with
  | Ok v w => view (heap w) v
  | Throw _ => None
  end.




(** ** Vocabulary of the further properties *)

(** The world in which the hook runs: the world of the call, after the
    [{}] of an omitted [props] has been built. *)
Definition call_world (a : GetCmpByAttrProps) (w : world) : world :=
  match props a with
  | Some _ => w
  | None => set_heap (heap w ++ [OObject ∅]) w
  end.

(** The world a call that recomputes leaves behind, from the world
    [w'] in which the function passed to [useMemo] ended. *)
Definition remember (v : val) (deps : list node) (w' : world) : world :=
  World (heap w') (console w') (Some (v, deps)).

Definition starts_with_dot (s : string) : bool :=
  match s with
  | String c _ => Ascii.eqb c "."%char
  | EmptyString => false
  end.







(** ** Lemmas on the host *)

Section node_induction.
Variable P : node → Prop.
Hypothesis Hleaf : ∀ v, P (Leaf v).
Hypothesis Harr : ∀ l xs, Forall P xs → P (Arr l xs).

Fixpoint node_ind_nested (n : node) : P n :=
  match n with
  | Leaf v => Hleaf v
  | Arr l xs =>
      Harr l xs ((fix all (xs : list node) : Forall P xs :=
                  match xs with
                  | [] => Forall_nil_2 P
                  | x :: xs' => Forall_cons_2 P x xs' (node_ind_nested x) (all xs')
                  end) xs)
  end.
End node_induction.

Lemma set_heap_id w : set_heap (heap w) w = w.
Proof. by destruct w. Qed.

Lemma strict_equals_string m attr value :
  strict_equals (Get m attr) (VStr value)
  = bool_decide (m !! attr = Some (VStr value)).
Proof.
  unfold strict_equals, Get. apply bool_decide_ext.
  destruct (m !! attr) as [x|]; [split; congruence|].
  by destruct (bool_decide (attr ∈ Object_prototype)).
Qed.

(** *** Growing the store keeps what was read from it *)

Section extension.
Context {h h' : list obj}.
Hypothesis Hext : h `prefix_of` h'.

Lemma lookup_ext l o : h !! l = Some o → h' !! l = Some o.
Proof. intros. by eapply prefix_lookup_Some. Qed.

Lemma as_element_ext v e : as_element h v = Some e → as_element h' v = Some e.
Proof.
  destruct v; cbn -[lookup]; try done.
  destruct (h !! l) as [o|] eqn:E; [|done].
  by rewrite (lookup_ext _ _ E).
Qed.

Lemma props_of_ext e m : props_of h e = Some m → props_of h' e = Some m.
Proof.
  unfold props_of. destruct (h !! React.props e) as [o|] eqn:E; [|done].
  by rewrite (lookup_ext _ _ E).
Qed.

Lemma resolves_ext v : resolves h v = true → resolves h' v = true.
Proof.
  destruct v; cbn -[lookup]; try done.
  rewrite !bool_decide_eq_true. intros [o Ho]. exists o. by apply lookup_ext.
Qed.

Lemma type_defaultProps_ext ty :
  resolves h ty = true → type_defaultProps h' ty = type_defaultProps h ty.
Proof.
  destruct ty; cbn -[lookup]; try done.
  rewrite bool_decide_eq_true. intros [o Ho]. by rewrite Ho, (lookup_ext _ _ Ho).
Qed.

Lemma valid_type_ext ty : valid_type h ty = true → valid_type h' ty = true.
Proof.
  unfold valid_type. intros [Hty Hdp]%andb_true_iff.
  rewrite (type_defaultProps_ext _ Hty).
  by rewrite (resolves_ext _ Hty), (resolves_ext _ Hdp).
Qed.

(** The defaults of a type are read as before. *)
Lemma defaultProps_of_ext ty :
  valid_type h ty = true → defaultProps_of h' ty = defaultProps_of h ty.
Proof.
  unfold valid_type, defaultProps_of. intros [Hty Hdp]%andb_true_iff.
  rewrite (type_defaultProps_ext _ Hty).
  destruct (type_defaultProps h ty) as [| | | | |d|]; try done.
  cbn -[lookup] in Hdp. apply bool_decide_eq_true in Hdp as [o Ho].
  by rewrite Ho, (lookup_ext _ _ Ho).
Qed.

Lemma valid_child_ext v : valid_child h v = true → valid_child h' v = true.
Proof.
  destruct v; cbn -[lookup valid_type]; try done.
  destruct (h !! l) as [o|] eqn:E; [|done].
  rewrite (lookup_ext _ _ E). destruct o; try done.
  intros [[m Hm]%bool_decide_eq_true Hty]%andb_true_iff.
  apply andb_true_iff. split; [|by apply valid_type_ext].
  apply bool_decide_eq_true. exists m. by apply props_of_ext.
Qed.

Lemma valid_child_as_element v :
  valid_child h v = true → as_element h' v = as_element h v.
Proof.
  destruct v; cbn -[lookup]; try done.
  destruct (h !! l) as [o|] eqn:E; [|done].
  by rewrite (lookup_ext _ _ E).
Qed.

Lemma valid_child_matches attr value v :
  valid_child h v = true →
  node_matches h' attr value v = node_matches h attr value v.
Proof.
  intros Hv. unfold node_matches. rewrite (valid_child_as_element _ Hv).
  destruct v; cbn -[lookup valid_type] in *; try done.
  destruct (h !! l) as [[| e | |]|] eqn:E; try done.
  apply andb_true_iff in Hv as [[m Hm]%bool_decide_eq_true _].
  by rewrite Hm, (props_of_ext _ _ Hm).
Qed.

Lemma view_ext v s : view h v = Some s → view h' v = Some s.
Proof.
  unfold view. destruct (as_element h v) as [e|] eqn:E; [|done].
  rewrite (as_element_ext _ _ E).
  destruct (props_of h e) as [m|] eqn:Em; [|done].
  by rewrite (props_of_ext _ _ Em).
Qed.

Lemma well_formed_ext n : well_formed h n = true → well_formed h' n = true.
Proof.
  induction n as [v|l0 xs IH] using node_ind_nested; cbn -[lookup].
  - apply valid_child_ext.
  - intros [Harr Hall]%andb_true_iff. apply andb_true_iff. split.
    + destruct (h !! l0) as [o|] eqn:E; [|done].
      by rewrite (lookup_ext _ _ E).
    + revert Hall. rewrite !forallb_forall. intros Hall x Hx.
      rewrite Forall_forall in IH.
      apply IH; [by apply list_elem_of_In | by apply Hall].
Qed.

Lemma valid_props_ext p : valid_props h p = true → valid_props h' p = true.
Proof.
  destruct p as [l|]; cbn -[lookup]; [|done].
  destruct (h !! l) as [o|] eqn:E; [|done].
  by rewrite (lookup_ext _ _ E).
Qed.

Lemma getElementKey_ext n i :
  well_formed h n = true →
  Children.getElementKey h' n i = Children.getElementKey h n i.
Proof.
  destruct n as [[]|]; cbn -[lookup]; try done.
  destruct (h !! l) as [o|] eqn:E; [|done].
  by rewrite (lookup_ext _ _ E).
Qed.
End extension.

(** *** [React.Children.toArray] *)

Lemma mapIntoArray_Arr l xs name w :
  Children.mapIntoArray (Arr l xs) name w
  = mapIntoArray_each (next_prefix name) xs 0 w.
Proof.
  cbn [Children.mapIntoArray]. fold (next_prefix name).
  generalize 0. revert w.
  induction xs as [|x xs IH]; intros w i; [done|].
  cbn [mapIntoArray_each]. unfold bind.
  destruct (Children.mapIntoArray x _ w) as [pushed w1|]; [|done].
  by rewrite IH.
Qed.

Lemma flattened_from_Arr h l xs name :
  flattened_from h (Arr l xs) name = flattened_each h (next_prefix name) xs 0.
Proof.
  cbn [flattened_from]. fold (next_prefix name). generalize 0.
  induction xs as [|x xs IH]; intros i; [done|].
  cbn [flattened_each]. by rewrite IH.
Qed.

Lemma copies_app h xs ys : copies h (xs ++ ys) = copies h xs ++ copies h ys.
Proof.
  induction xs as [|[v k] xs IH]; [done|]. cbn [copies app].
  destruct (as_element h v); by rewrite ?IH.
Qed.

Lemma items_app h xs ys base :
  items h (xs ++ ys) base
  = items h xs base ++ items h ys (base + length (copies h xs)).
Proof.
  revert base. induction xs as [|[v k] xs IH]; intros base.
  - cbn. by rewrite Nat.add_0_r.
  - cbn [items copies app]. destruct (as_element h v).
    + rewrite IH. cbn [length]. by rewrite Nat.add_succ_r.
    + by rewrite IH.
Qed.

Lemma mapIntoArray_spec h n :
  well_formed h n = true →
  ∀ name w, h `prefix_of` heap w →
    Children.mapIntoArray n name w
    = Ok (items h (flattened_from h n name) (length (heap w)))
         (set_heap (heap w ++ copies h (flattened_from h n name)) w).
Proof.
  induction n as [v|l0 xs IH] using node_ind_nested.
  - intros Hwf name w Hext. cbn -[lookup] in Hwf.
    destruct v as [| |b|z|s|l|name0];
      try (cbn; by rewrite app_nil_r, set_heap_id).
    cbn -[lookup Children.getElementKey] in *.
    destruct (h !! l) as [o|] eqn:E; [|done].
    rewrite (lookup_ext Hext _ _ E).
    destruct o as [|e|k|]; [done| | |done].
    + rewrite (getElementKey_ext Hext (Leaf (VRef l)) 0)
        by (cbn -[lookup]; by rewrite E).
      done.
    + by rewrite app_nil_r, set_heap_id.
  - intros Hwf name w Hext. rewrite mapIntoArray_Arr, flattened_from_Arr.
    cbn [well_formed] in Hwf.
    apply andb_true_iff in Hwf as [_ Hwf]. generalize 0. revert w Hext.
    generalize (next_prefix name). intros prefix.
    induction xs as [|x xs IHxs]; intros w Hext i.
    + cbn. by rewrite app_nil_r, set_heap_id.
    + cbn [forallb] in Hwf. apply andb_true_iff in Hwf as [Hx Hxs].
      apply Forall_cons in IH as [IHx IH].
      cbn [mapIntoArray_each flattened_each]. unfold bind.
      rewrite (getElementKey_ext Hext x i Hx).
      rewrite (IHx Hx _ w Hext).
      rewrite (IHxs IH Hxs).
      2:{ cbn. by apply prefix_app_r. }
      unfold ret. cbn [heap set_heap console memoizedState].
      rewrite items_app, copies_app, length_app, app_assoc.
      done.
Qed.

Lemma toArray_spec h children w :
  well_formed h children = true → h `prefix_of` heap w →
  Children.toArray children w
  = Ok (items h (flattened h children) (length (heap w)))
       (set_heap (heap w ++ copies h (flattened h children)) w).
Proof.
  intros Hwf Hext. unfold flattened.
  rewrite <- (mapIntoArray_spec h children Hwf "" w Hext).
  by destruct children as [[]|].
Qed.

Lemma flattened_from_valid h n :
  well_formed h n = true →
  ∀ name, Forall (λ x, valid_child h x.1 = true) (flattened_from h n name).
Proof.
  induction n as [v|l0 xs IH] using node_ind_nested; intros Hwf name.
  - cbn -[lookup] in Hwf.
    destruct v; cbn -[valid_child]; repeat constructor; done.
  - rewrite flattened_from_Arr. cbn [well_formed] in Hwf.
    apply andb_true_iff in Hwf as [_ Hwf].
    generalize (next_prefix name) 0. intros prefix.
    induction xs as [|x xs IHxs]; intros i; [constructor|].
    cbn [forallb] in Hwf. apply andb_true_iff in Hwf as [Hx Hxs].
    apply Forall_cons in IH as [IHx IH].
    cbn [flattened_each]. apply Forall_app. split; auto.
Qed.

Lemma flattened_from_ext h h' n :
  h `prefix_of` h' → well_formed h n = true →
  ∀ name, flattened_from h' n name = flattened_from h n name.
Proof.
  intros Hext.
  induction n as [v|l0 xs IH] using node_ind_nested; intros Hwf name.
  - cbn [flattened_from].
    by rewrite (getElementKey_ext Hext (Leaf v) 0 Hwf).
  - rewrite !flattened_from_Arr. cbn [well_formed] in Hwf.
    apply andb_true_iff in Hwf as [_ Hwf].
    generalize (next_prefix name) 0. intros prefix.
    induction xs as [|x xs IHxs]; intros i; [done|].
    cbn [forallb] in Hwf. apply andb_true_iff in Hwf as [Hx Hxs].
    apply Forall_cons in IH as [IHx IH].
    cbn [flattened_each].
    by rewrite (getElementKey_ext Hext x i Hx), (IHx Hx), (IHxs IH Hxs).
Qed.

(** The flattened children are the leaves in declaration order. *)
Lemma flattened_leaves h n : ∀ name, (flattened_from h n name).*1 = leaves n.
Proof.
  induction n as [v|l0 xs IH] using node_ind_nested; intros name.
  - by destruct v.
  - rewrite flattened_from_Arr. cbn [leaves].
    generalize (next_prefix name) 0. intros prefix.
    induction xs as [|x xs IHxs]; intros i; [done|].
    apply Forall_cons in IH as [IHx IH].
    cbn [flattened_each flat_map]. by rewrite fmap_app, IHx, IHxs.
Qed.

Lemma child_refs_leaves h children : child_refs h children = leaves children.
Proof. apply flattened_leaves. Qed.

(** *** [find] over the array of [toArray] *)

Lemma matches_copy attr value w l e m :
  heap w !! l = Some (OElement e) →
  heap w !! React.props e = Some (OObject m) →
  matches attr value (VRef l) w
  = Ok (bool_decide (m !! attr = Some (VStr value))) w.
Proof.
  intros Hl Hp. unfold matches, bind, isValidElement. rewrite Hl.
  unfold read_element. rewrite Hl. unfold read_object. rewrite Hp.
  unfold ret. by rewrite strict_equals_string.
Qed.

Lemma matches_not_element attr value w v :
  as_element (heap w) v = None → matches attr value v w = Ok false w.
Proof.
  intros Hv. unfold matches, bind, isValidElement.
  destruct v as [| | | | |l|]; try done.
  cbn -[lookup] in Hv. by destruct (heap w !! l) as [[]|].
Qed.

Lemma find_items h attr value w xs :
  ∀ pre suf,
    Forall (λ x, valid_child h x.1 = true) xs →
    h `prefix_of` pre →
    heap w = pre ++ copies h xs ++ suf →
    find (matches attr value) (items h xs (length pre)) w
    = Ok (found h attr value xs (length pre)) w.
Proof.
  induction xs as [|[v k] xs IH]; intros pre suf Hval Hext Hw; [done|].
  apply Forall_cons in Hval as [Hv Hval]. cbn [fst] in Hv.
  assert (h `prefix_of` heap w) as Hhw.
  { rewrite Hw. by apply prefix_app_r. }
  cbn [items found copies] in *.
  destruct (as_element h v) as [e|] eqn:Ee.
  - cbn [find]. unfold bind.
    assert (∃ m, props_of h e = Some m) as [m Hm].
    { destruct v as [| | | | |l|]; try done. cbn -[lookup valid_type] in Ee, Hv.
      destruct (h !! l) as [[]|]; try done. simplify_eq.
      by apply andb_true_iff in Hv as [Hv%bool_decide_eq_true _]. }
    rewrite (matches_copy attr value w (length pre) (rekeyed e k) m).
    2:{ rewrite Hw. by apply list_lookup_middle. }
    2:{ cbn [rekeyed React.props]. unfold props_of in Hm.
        destruct (h !! React.props e) as [o|] eqn:Eo; [|done].
        rewrite (lookup_ext Hhw _ _ Eo). by destruct o; simplify_eq. }
    unfold node_matches. rewrite Ee, Hm.
    destruct (bool_decide (m !! attr = Some (VStr value))); [done|].
    replace (S (length pre)) with (length (pre ++ [OElement (rekeyed e k)]))
      by (rewrite length_app; cbn; lia).
    apply (IH _ suf Hval).
    + by apply prefix_app_r.
    + rewrite Hw. by rewrite <- app_assoc.
  - cbn [find]. unfold bind. rewrite matches_not_element.
    + by apply (IH pre suf).
    + destruct (as_element (heap w) v) as [e|] eqn:E; [|done].
      by rewrite (valid_child_as_element Hhw v Hv), Ee in E.
Qed.

Lemma node_matches_element h attr value v :
  node_matches h attr value v = true → is_Some (as_element h v).
Proof. unfold node_matches. destruct (as_element h v); [eauto|done]. Qed.

Lemma found_None h attr value xs base :
  first_match h attr value xs = None → found h attr value xs base = VUndefined.
Proof.
  revert base. induction xs as [|[v k] xs IH]; intros base; [done|].
  unfold first_match. cbn [List.find found fst].
  destruct (node_matches h attr value v) eqn:Em; [done|].
  intros Hn. destruct (as_element h v); by apply IH.
Qed.

Lemma found_Some h attr value xs base v k :
  first_match h attr value xs = Some (v, k) →
  ∃ e j, as_element h v = Some e
         ∧ node_matches h attr value v = true
         ∧ found h attr value xs base = VRef (base + j)
         ∧ copies h xs !! j = Some (OElement (rekeyed e k)).
Proof.
  revert base. induction xs as [|[v' k'] xs IH]; intros base; [done|].
  unfold first_match. cbn [List.find found copies fst].
  destruct (node_matches h attr value v') eqn:Em.
  - intros [= -> ->].
    destruct (node_matches_element _ _ _ _ Em) as [e He].
    exists e, 0. rewrite He, Nat.add_0_r. done.
  - intros Hf. destruct (as_element h v') as [e'|].
    + destruct (IH (S base) Hf) as (e & j & He & Hm & Hfound & Hc).
      exists e, (S j). rewrite Nat.add_succ_r. done.
    + destruct (IH base Hf) as (e & j & He & Hm & Hfound & Hc).
      by exists e, j.
Qed.

(** *** [cloneElement] *)

Lemma set_heap_set_heap h1 h2 w : set_heap h2 (set_heap h1 w) = set_heap h2 w.
Proof. done. Qed.

(** A write on a plain object that has no [__proto__] of its own. *)
Lemma set_property_spec target k x w m :
  heap w !! target = Some (OObject m) → m !! "__proto__" = None →
  set_property target k x w
  = Ok tt (set_heap
             (<[target := OObject (if bool_decide (k = "__proto__") then m
                                   else <[k := x]> m)]> (heap w)) w).
Proof.
  intros Hw Hm. unfold set_property. rewrite Hw.
  case_bool_decide as Hk; cbn [andb]; [|done].
  subst k. rewrite bool_decide_eq_true_2 by done.
  by rewrite (list_insert_id _ _ _ Hw), set_heap_id.
Qed.

(** A loop of property writes on one object leaves the entries that [g]
    selects on top of what the object had. *)
Lemma fold_writes (target : loc) (g : string → val → option val)
    (body : string → val → M unit) (source : gmap string val) :
  (∀ k v w m,
     heap w !! target = Some (OObject m) → m !! "__proto__" = None →
     body k v w
     = Ok tt (set_heap
                (<[target := OObject (match g k v with
                                      | Some x => <[k := x]> m
                                      | None => m
                                      end)]> (heap w)) w)) →
  (∀ v, g "__proto__" v = None) →
  ∀ w m0,
    heap w !! target = Some (OObject m0) → m0 !! "__proto__" = None →
    map_fold (λ k v done, done;; body k v) (ret tt) source w
    = Ok tt (set_heap (<[target := OObject (map_imap g source ∪ m0)]> (heap w)) w).
Proof.
  intros Hbody Hproto.
  apply (map_fold_weak_ind
    (λ (c : M unit) (m : gmap string val),
       ∀ w m0, heap w !! target = Some (OObject m0) → m0 !! "__proto__" = None →
         c w = Ok tt (set_heap
                 (<[target := OObject (map_imap g m ∪ m0)]> (heap w)) w))).
  - intros w m0 Hw _. rewrite map_imap_empty, (left_id_L ∅ (∪)).
    by rewrite (list_insert_id _ _ _ Hw), set_heap_id.
  - intros k v m c Hk IH w m0 Hw Hm0. unfold bind. rewrite (IH w m0 Hw Hm0).
    assert (target < length (heap w)) as Hlt by by eapply lookup_lt_Some.
    rewrite (Hbody k v _ (map_imap g m ∪ m0)).
    + cbn [heap set_heap]. rewrite list_insert_insert_eq, set_heap_set_heap.
      rewrite map_imap_insert. destruct (g k v) as [x|].
      * by rewrite insert_union_l.
      * rewrite delete_id; [done|]. by rewrite map_lookup_imap, Hk.
    + cbn [heap set_heap]. by rewrite list_lookup_insert_eq.
    + apply lookup_union_None. split; [|done]. rewrite map_lookup_imap.
      destruct (m !! "__proto__"); [apply Hproto|done].
Qed.

Lemma assign_spec target source w :
  heap w !! target = Some (OObject ∅) →
  assign target source w
  = Ok tt (set_heap (<[target := OObject (delete "__proto__" source)]> (heap w)) w).
Proof.
  intros Hw. unfold assign.
  rewrite (fold_writes target
             (λ k v, if bool_decide (k = "__proto__") then None else Some v)
             (set_property target) source) with (m0 := ∅); try done.
  - rewrite (right_id_L ∅ (∪)). do 4 f_equal. apply map_eq. intros k.
    rewrite map_lookup_imap. case_bool_decide as Hk.
    + subst k. rewrite lookup_delete_eq. by destruct (source !! "__proto__").
    + rewrite lookup_delete_ne by done. by destruct (source !! k).
  - intros k v w0 m Hw0 Hm. rewrite (set_property_spec _ _ _ _ m) by done.
    by case_bool_decide.
Qed.

Lemma override_spec target config defaultProps w m0 :
  heap w !! target = Some (OObject m0) → m0 !! "__proto__" = None →
  override target config defaultProps w
  = Ok tt (set_heap
             (<[target := OObject (map_imap (written defaultProps) config ∪ m0)]>
                (heap w)) w).
Proof.
  intros Hw Hm0. unfold override.
  apply (fold_writes target (written defaultProps)); try done.
  intros k v w0 m Hw0 Hm. unfold written.
  destruct (reserved k) eqn:Er; cbn [orb].
  { unfold ret. by rewrite (list_insert_id _ _ _ Hw0), set_heap_id. }
  assert (match defaultProps with
          | Some dp =>
              if strict_equals v VUndefined
              then set_property target k (Get dp k)
              else set_property target k v
          | None => set_property target k v
          end = set_property target k (resolved defaultProps k v)) as ->.
  { unfold resolved. destruct defaultProps as [dp|]; [|done].
    by destruct (strict_equals v VUndefined). }
  rewrite (set_property_spec _ _ _ _ m) by done. by case_bool_decide.
Qed.

Lemma insert_fresh (h : list obj) (x y : obj) :
  <[length h := y]> (h ++ [x]) = h ++ [y].
Proof.
  rewrite <- (Nat.add_0_r (length h)). by rewrite insert_app_r.
Qed.

Lemma cloneElement_spec w m config e old cfg :
  heap w !! m = Some (OElement e) →
  heap w !! React.props e = Some (OObject old) →
  heap w !! config = Some (OObject cfg) →
  valid_type (heap w) (type e) = true →
  cloneElement (VRef m) config w
  = Ok (VRef (S (length (heap w))))
       (set_heap (heap w ++ [OObject (merged cfg old
                                        (defaultProps_of (heap w) (type e)));
                             OElement (cloned e cfg (length (heap w)))]) w).
Proof.
  intros Hm Hold Hcfg Hty. unfold cloneElement, bind.
  unfold read_element at 1. rewrite Hm.
  unfold read_object at 1. rewrite Hold.
  unfold alloc at 1.
  rewrite (assign_spec _ old).
  2:{ cbn [heap set_heap]. by apply list_lookup_middle. }
  cbn [heap set_heap]. rewrite insert_fresh.
  unfold read_object. cbn [heap set_heap].
  rewrite (lookup_app_l_Some _ _ _ _ Hcfg).
  unfold read_defaultProps. cbn [heap set_heap].
  rewrite (defaultProps_of_ext (h := heap w)) by (by apply prefix_app_r || done).
  rewrite (override_spec _ cfg _ _ (delete "__proto__" old)).
  2:{ cbn [heap set_heap]. by apply list_lookup_middle. }
  2:{ apply lookup_delete_eq. }
  cbn [heap set_heap]. rewrite insert_fresh.
  unfold alloc, ret. cbn [heap set_heap].
  rewrite length_app, <- app_assoc. cbn [length app].
  rewrite Nat.add_1_r. done.
Qed.

(** *** The function passed to [useMemo] *)

Lemma valid_element_props h v e :
  valid_child h v = true → as_element h v = Some e →
  ∃ old, props_of h e = Some old.
Proof.
  destruct v as [| | | | |l|]; try done. cbn -[lookup valid_type].
  destruct (h !! l) as [[]|]; try done.
  intros [Hv _]%andb_true_iff [= ->]. by apply bool_decide_eq_true in Hv.
Qed.

Lemma valid_element_type h v e :
  valid_child h v = true → as_element h v = Some e →
  valid_type h (type e) = true.
Proof.
  destruct v as [| | | | |l|]; try done. cbn -[lookup valid_type].
  destruct (h !! l) as [[]|]; try done.
  by intros [_ Hv]%andb_true_iff [= ->].
Qed.

Lemma props_of_lookup h e old :
  props_of h e = Some old → h !! React.props e = Some (OObject old).
Proof.
  unfold props_of. destruct (h !! React.props e) as [[]|]; naive_solver.
Qed.

Lemma first_match_valid h attr value xs v k :
  Forall (λ x, valid_child h x.1 = true) xs →
  first_match h attr value xs = Some (v, k) → valid_child h v = true.
Proof.
  intros Hall Hf. apply find_some in Hf as [Hin _].
  rewrite Forall_forall in Hall. by apply (Hall (v, k)), list_elem_of_In.
Qed.

Lemma create_no_match w children attr value config debug :
  well_formed (heap w) children = true →
  first_match (heap w) attr value (flattened (heap w) children) = None →
  create children attr value config debug w
  = Ok VNull
      (World (heap w ++ copies (heap w) (flattened (heap w) children))
             (console w ++ if debug then [Warn (not_found attr value)] else [])
             (memoizedState w)).
Proof.
  intros Hwf Hnone. unfold create, bind.
  rewrite (toArray_spec (heap w)) by done.
  rewrite (find_items (heap w) attr value _ _ (heap w) []).
  - rewrite (found_None _ _ _ _ _ Hnone). cbn [ToBoolean].
    destruct debug; cbn; [done|]. by rewrite app_nil_r.
  - by apply flattened_from_valid.
  - done.
  - cbn. by rewrite app_nil_r.
Qed.

Lemma create_match w children attr value config debug cfg v k :
  well_formed (heap w) children = true →
  heap w !! config = Some (OObject cfg) →
  first_match (heap w) attr value (flattened (heap w) children) = Some (v, k) →
  let h1 := heap w ++ copies (heap w) (flattened (heap w) children) in
  ∃ e old m,
    as_element (heap w) v = Some e
    ∧ props_of (heap w) e = Some old
    ∧ create children attr value config debug w
      = Ok (VRef (S (length h1)))
          (World (h1 ++ [OObject (merged cfg old
                                    (defaultProps_of (heap w) (type e)));
                         OElement (cloned (rekeyed e k) cfg (length h1))])
                 (console w ++
                    if debug
                    then [Log "Found component with matching props:" (VRef m)]
                    else [])
                 (memoizedState w)).
Proof.
  intros Hwf Hcfg Hsome h1.
  pose proof (flattened_from_valid _ _ Hwf "") as Hval.
  destruct (found_Some _ _ _ _ (length (heap w)) _ _ Hsome)
    as (e & j & He & Hm & Hfound & Hcopy).
  destruct (valid_element_props _ _ _ (first_match_valid _ _ _ _ _ _ Hval Hsome) He)
    as [old Hold].
  pose proof (valid_element_type _ _ _
                (first_match_valid _ _ _ _ _ _ Hval Hsome) He) as Hty.
  exists e, old, (length (heap w) + j). do 2 (split; [done|]).
  unfold create, bind.
  rewrite (toArray_spec (heap w)) by done.
  rewrite (find_items (heap w) attr value _ _ (heap w) []);
    [|done|done|cbn; by rewrite app_nil_r].
  fold (flattened (heap w) children). rewrite Hfound. cbn [ToBoolean].
  assert (heap w `prefix_of` h1) as Hext by by apply prefix_app_r.
  assert (h1 !! (length (heap w) + j) = Some (OElement (rekeyed e k))) as Hm1.
  { unfold h1. rewrite lookup_app_r by lia.
    by replace (length (heap w) + j - length (heap w)) with j by lia. }
  assert (h1 !! React.props (rekeyed e k) = Some (OObject old)) as Hold1.
  { apply (lookup_ext Hext). by apply props_of_lookup. }
  pose proof (lookup_ext Hext _ _ Hcfg) as Hcfg1.
  pose proof (valid_type_ext Hext _ Hty) as Hty1.
  pose proof (defaultProps_of_ext Hext _ Hty) as Hdp.
  destruct debug.
  - unfold console_log.
    rewrite (cloneElement_spec _ _ _ (rekeyed e k) old cfg) by done.
    cbn [rekeyed type heap set_heap] in *. unfold h1 in Hdp. by rewrite Hdp.
  - unfold ret.
    rewrite (cloneElement_spec _ _ _ (rekeyed e k) old cfg) by done.
    cbn [rekeyed type heap set_heap] in *. unfold h1 in Hdp. rewrite Hdp.
    cbn. by rewrite app_nil_r.
Qed.

Lemma view_clone h e cfg (m : gmap string val) :
  view (h ++ [OObject m; OElement (cloned e cfg (length h))])
       (VRef (S (length h)))
  = Some (Snapshot (type e)
            (if hasValidKey cfg then Some (ToString (Get cfg "key")) else key e)
            (if hasValidRef cfg then Get cfg "ref" else ref e)
            m).
Proof.
  unfold view, as_element, props_of.
  rewrite lookup_app_r by lia.
  replace (S (length h) - length h) with 1 by lia.
  change ([OObject m; OElement (cloned e cfg (length h))] !! 1)
    with (Some (OElement (cloned e cfg (length h)))).
  cbn -[lookup]. by rewrite list_lookup_middle.
Qed.

(** [clone_snapshot] is the content of what [cloneElement] returns for the
    copy that [toArray] made of [e] under the key [k]. *)
Lemma cloneElement_content w m config e k old cfg :
  heap w !! m = Some (OElement (rekeyed e k)) →
  heap w !! React.props e = Some (OObject old) →
  heap w !! config = Some (OObject cfg) →
  valid_type (heap w) (type e) = true →
  ∃ r w',
    cloneElement (VRef m) config w = Ok (VRef r) w'
    ∧ view (heap w') (VRef r)
      = Some (clone_snapshot e k old cfg (defaultProps_of (heap w) (type e))).
Proof.
  intros Hm Hold Hcfg Hty.
  rewrite (cloneElement_spec w m config (rekeyed e k) old cfg) by done.
  eexists _, _. split; [done|]. cbn [heap set_heap]. by rewrite view_clone.
Qed.

Lemma first_match_ext h h' attr value xs :
  h `prefix_of` h' →
  Forall (λ x, valid_child h x.1 = true) xs →
  first_match h' attr value xs = first_match h attr value xs.
Proof.
  intros Hext. unfold first_match.
  induction 1 as [|[v k] xs Hv Hall IH]; [done|]. cbn [List.find fst] in *.
  by rewrite (valid_child_matches Hext attr value v Hv), IH.
Qed.

Lemma expected_ext h h' children attr value config :
  h `prefix_of` h' →
  well_formed h children = true →
  valid_props h (Some config) = true →
  expected h' children attr value config = expected h children attr value config.
Proof.
  intros Hext Hwf Hcfg. unfold expected, flattened.
  pose proof (flattened_from_valid _ _ Hwf "") as Hval.
  rewrite (flattened_from_ext h h') by done.
  rewrite (first_match_ext h h') by done.
  destruct (first_match h attr value _) as [[v k]|] eqn:Hf; [|done].
  pose proof (first_match_valid _ _ _ _ _ _ Hval Hf) as Hv.
  rewrite (valid_child_as_element Hext v Hv).
  destruct (as_element h v) as [e|] eqn:He; [|done].
  destruct (valid_element_props _ _ _ Hv He) as [old Hold].
  rewrite Hold, (props_of_ext Hext _ _ Hold).
  rewrite (defaultProps_of_ext Hext _ (valid_element_type _ _ _ Hv He)).
  cbn -[lookup] in Hcfg. destruct (h !! config) as [o|] eqn:E; [|done].
  by rewrite (lookup_ext Hext _ _ E).
Qed.

Lemma child_refs_ext h h' children :
  h `prefix_of` h' → well_formed h children = true →
  child_refs h' children = child_refs h children.
Proof.
  intros. unfold child_refs, flattened. by rewrite (flattened_from_ext h h').
Qed.

Lemma child_refs_below h children (r : loc) :
  well_formed h children = true → (length h ≤ r)%nat →
  VRef r ∉ child_refs h children.
Proof.
  intros Hwf Hr Hin. unfold child_refs in Hin.
  apply list_elem_of_fmap in Hin as ([v k] & Hv & Hin). cbn in Hv. subst v.
  pose proof (flattened_from_valid _ _ Hwf "") as Hval.
  rewrite Forall_forall in Hval. specialize (Hval _ Hin).
  cbn -[lookup] in Hval.
  destruct (h !! r) as [o|] eqn:E; [|done].
  apply lookup_lt_Some in E. lia.
Qed.

Lemma create_answers w children attr value config debug :
  well_formed (heap w) children = true →
  valid_props (heap w) (Some config) = true →
  ∃ v w' news es,
    create children attr value config debug w = Ok v w'
    ∧ heap w' = heap w ++ news
    ∧ memoizedState w' = memoizedState w
    ∧ console w' = console w ++ (if debug then es else [])
    ∧ logged attr value v es
    ∧ answers (heap w') children attr value config v = true
    ∧ (∀ r, v = VRef r → (length (heap w) ≤ r)%nat).
Proof.
  intros Hwf Hcfg.
  assert (∃ cfg, heap w !! config = Some (OObject cfg)) as [cfg Hcfg'].
  { cbn -[lookup] in Hcfg. destruct (heap w !! config) as [[]|]; naive_solver. }
  destruct (first_match (heap w) attr value (flattened (heap w) children))
    as [[v k]|] eqn:Hf.
  - destruct (create_match w children attr value config debug cfg v k Hwf Hcfg' Hf)
      as (e & old & m & He & Hold & Hrun).
    eexists _, _, _, _. split; [exact Hrun|]. cbn [heap console memoizedState].
    split; [by rewrite <- app_assoc|]. split; [done|]. split; [done|].
    split; [by exists m|].
    set (h1 := heap w ++ copies (heap w) (flattened (heap w) children)).
    set (h2 := h1 ++ _).
    assert (heap w `prefix_of` h2) as Hext.
    { unfold h2, h1. rewrite <- app_assoc. by apply prefix_app_r. }
    split.
    + unfold answers. rewrite (expected_ext (heap w) h2) by done.
      unfold expected. rewrite Hf, He, Hold, Hcfg'.
      apply andb_true_iff. split; apply bool_decide_eq_true.
      * unfold h2. by rewrite view_clone.
      * rewrite (child_refs_ext (heap w) h2) by done.
        apply child_refs_below; [done|]. unfold h1. rewrite length_app. lia.
    + intros r [= <-]. unfold h1. rewrite length_app. lia.
  - rewrite (create_no_match w children attr value config debug Hwf Hf).
    eexists _, _, _, _. split; [done|]. cbn [heap console memoizedState].
    do 3 (split; [done|]). split; [done|]. split; [|done].
    unfold answers. rewrite (expected_ext (heap w)); [|by apply prefix_app_r|done..].
    unfold expected. by rewrite Hf.
Qed.

(** *** [useMemo] *)

(** Two well-formed nodes that are the same value are the same node: the
    store holds the items of an array. *)
Lemma ident_inj h a :
  ∀ b, well_formed h a = true → well_formed h b = true →
       ident a = ident b → a = b.
Proof.
  induction a as [x|l xs IH] using node_ind_nested; intros [y|l' ys] Ha Hb Hab;
    cbn -[lookup] in *.
  - by subst.
  - subst x. apply andb_true_iff in Hb as [Hb _]. cbn -[lookup] in Ha.
    by destruct (h !! l') as [[]|].
  - subst y. apply andb_true_iff in Ha as [Ha _]. cbn -[lookup] in Hb.
    by destruct (h !! l) as [[]|].
  - injection Hab as <-.
    apply andb_true_iff in Ha as [Ha Hxs], Hb as [Hb Hys].
    destruct (h !! l) as [[| | |items]|]; try done.
    apply bool_decide_eq_true in Ha, Hb. subst items.
    f_equal. clear l. revert ys Hb Hys.
    induction xs as [|x xs IHxs]; intros [|y ys] Hmap Hys; try done.
    apply Forall_cons in IH as [IHx IH].
    cbn [forallb map] in *.
    apply andb_true_iff in Hxs as [Hx Hxs], Hys as [Hy Hys].
    injection Hmap as Hxy Hmap.
    f_equal; [by apply IHx | by apply IHxs].
Qed.

Lemma Object_is_eq h a b :
  well_formed h a = true → well_formed h b = true →
  Object_is a b = true → a = b.
Proof.
  intros Ha Hb Hab. apply bool_decide_eq_true in Hab. by eapply ident_inj.
Qed.

Lemma memo_ok_cell w cached prevDeps :
  memo_ok w = true → memoizedState w = Some (cached, prevDeps) →
  ∃ c a v p d,
    prevDeps = [c; Leaf (VStr a); Leaf (VStr v); Leaf (VRef p); Leaf (VBool d)]
    ∧ well_formed (heap w) c = true
    ∧ valid_props (heap w) (Some p) = true
    ∧ answers (heap w) c a v p cached = true.
Proof.
  unfold memo_ok. intros H E. rewrite E in H.
  repeat (case_match; try done); subst.
  apply andb_true_iff in H as [[H1 H2]%andb_true_iff H3].
  eexists _, _, _, _, _. done.
Qed.

Lemma valid_props_lt h p : valid_props h (Some p) = true → (p < length h)%nat.
Proof.
  cbn -[lookup]. destruct (h !! p) as [o|] eqn:E; [|done].
  intros _. by eapply lookup_lt_Some.
Qed.

(** What a call does, from a world whose hook cell is in order. *)
Lemma getCmpByAttr_spec a w :
  well_formed_call (heap w) a = true →
  memo_ok w = true →
  let attr' := default "data-slot" (attr a) in
  let value' := default "" (value a) in
  let debug' := default false (debug a) in
  ∃ v w' news,
    getCmpByAttr a w = Ok v w'
    ∧ heap w' = heap w ++ news
    ∧ memo_ok w' = true
    ∧ answers (heap w') (children a) attr' value' (props_ref a w) v = true
    ∧ heap w' !! props_ref a w = Some (OObject (config_of (heap w) a))
    ∧ (memo_hit a w = true →
         memoizedState w = Some (v, deps_of a w) ∧ w' = w)
    ∧ (memo_hit a w = false →
         (∃ es, console w' = console w ++ (if debug' then es else [])
                ∧ logged attr' value' v es)
         ∧ memoizedState w' = Some (v, deps_of a w)
         ∧ ∀ r, v = VRef r → (length (heap w) ≤ r)%nat).
Proof.
  intros [Hwf Hp]%andb_true_iff Hmemo attr' value' debug'.
  (* the world in which [useMemo] runs *)
  set (w1 := match props a with
             | Some _ => w
             | None => set_heap (heap w ++ [OObject ∅]) w
             end).
  assert (getCmpByAttr a w
          = useMemo (create (children a) attr' value' (props_ref a w) debug')
                    (deps_of a w) w1) as ->.
  { unfold getCmpByAttr, bind, w1, deps_of, props_ref.
    by destruct (props a). }
  assert (heap w `prefix_of` heap w1) as Hext1.
  { unfold w1. destruct (props a); [done|]. by apply prefix_app_r. }
  assert (valid_props (heap w1) (Some (props_ref a w)) = true) as Hp1.
  { unfold w1, props_ref. destruct (props a) as [l|]; [done|].
    cbn -[lookup]. by rewrite list_lookup_middle. }
  assert (heap w1 !! props_ref a w = Some (OObject (config_of (heap w) a)))
    as Hcfg1.
  { unfold w1, props_ref, config_of. destruct (props a) as [l|].
    - cbn -[lookup] in *. by destruct (heap w !! l) as [[]|].
    - cbn -[lookup]. by rewrite list_lookup_middle. }
  pose proof (well_formed_ext Hext1 _ Hwf) as Hwf1.
  assert (memoizedState w1 = memoizedState w) as Hm1.
  { unfold w1. by destruct (props a). }
  assert (console w1 = console w) as Hc1.
  { unfold w1. by destruct (props a). }
  unfold useMemo, memo_hit. rewrite Hm1.
  destruct (memoizedState w) as [[cached prevDeps]|] eqn:Ecell.
  - destruct (memo_ok_cell _ _ _ Hmemo Ecell)
      as (c & a0 & v0 & p0 & d0 & -> & Hwfc & Hpc & Hans).
    destruct (areHookInputsEqual _ _) eqn:Ehit.
    + (* the dependencies are the same: the cached value *)
      cbn [areHookInputsEqual deps_of] in Ehit.
      apply andb_true_iff in Ehit as [Hchildren Ehit].
      apply (Object_is_eq (heap w) _ _ Hwf Hwfc) in Hchildren.
      unfold Object_is in Ehit. cbn [ident] in Ehit.
      repeat (apply andb_true_iff in Ehit as [? Ehit]).
      repeat match goal with
             | H : bool_decide _ = true |- _ => apply bool_decide_eq_true in H
             end.
      simplify_eq.
      assert (w1 = w) as ->.
      { unfold w1. destruct (props a) as [l|] eqn:El; [done|].
        apply valid_props_lt in Hpc.
        unfold props_ref in *. rewrite El in *. cbn in *. lia. }
      exists cached, w, []. rewrite app_nil_r.
      repeat split; done.
    + (* a dependency changed: recompute *)
      destruct (create_answers w1 (children a) attr' value' (props_ref a w)
                  debug' Hwf1 Hp1)
        as (v & w' & news & es & Hrun & Hheap & Hcell & Hcons & Hlog & Hans' & Hfresh).
      rewrite Hrun.
      assert (heap w1 `prefix_of` heap w') as Hext'.
      { rewrite Hheap. by apply prefix_app_r. }
      assert (∃ news', heap w' = heap w ++ news') as [news' Hheap'].
      { destruct Hext1 as [k1 Hk1]. exists (k1 ++ news).
        by rewrite Hheap, Hk1, app_assoc. }
      exists v, (World (heap w') (console w') (Some (v, deps_of a w))), news'.
      cbn [heap console memoizedState].
      split; [done|]. split; [done|]. split.
      { unfold memo_ok, deps_of. cbn [heap memoizedState].
        fold attr' value' debug'.
        rewrite (well_formed_ext Hext' _ Hwf1), (valid_props_ext Hext' _ Hp1).
        by rewrite Hans'. }
      split; [done|]. split; [by apply (lookup_ext Hext')|].
      split; [done|]. intros _.
      split; [|split; [done|]].
      * exists es. by rewrite Hcons, Hc1.
      * intros r Hr. specialize (Hfresh r Hr).
        apply prefix_length in Hext1. lia.
  - destruct (create_answers w1 (children a) attr' value' (props_ref a w)
                debug' Hwf1 Hp1)
      as (v & w' & news & es & Hrun & Hheap & Hcell & Hcons & Hlog & Hans' & Hfresh).
    rewrite Hrun.
    assert (heap w1 `prefix_of` heap w') as Hext'.
    { rewrite Hheap. by apply prefix_app_r. }
    assert (∃ news', heap w' = heap w ++ news') as [news' Hheap'].
    { destruct Hext1 as [k1 Hk1]. exists (k1 ++ news).
      by rewrite Hheap, Hk1, app_assoc. }
    exists v, (World (heap w') (console w') (Some (v, deps_of a w))), news'.
    cbn [heap console memoizedState].
    split; [done|]. split; [done|]. split.
    { unfold memo_ok, deps_of. cbn [heap memoizedState].
      fold attr' value' debug'.
      rewrite (well_formed_ext Hext' _ Hwf1), (valid_props_ext Hext' _ Hp1).
      by rewrite Hans'. }
    split; [done|]. split; [by apply (lookup_ext Hext')|].
    split; [done|]. intros _.
    split; [|split; [done|]].
    * exists es. by rewrite Hcons, Hc1.
    * intros r Hr. specialize (Hfresh r Hr).
      apply prefix_length in Hext1. lia.
Qed.

(** ** Lemmas on [getCmpByAttr] *)

Lemma expected_result_of h children attr value config cfg :
  h !! config = Some (OObject cfg) →
  expected h children attr value config = result_of h children attr value cfg.
Proof.
  intros Hcfg. unfold expected, result_of. rewrite Hcfg.
  by repeat case_match.
Qed.

Lemma result_of_ext h h' children attr value cfg :
  h `prefix_of` h' →
  well_formed h children = true →
  result_of h' children attr value cfg = result_of h children attr value cfg.
Proof.
  intros Hext Hwf. unfold result_of, flattened.
  pose proof (flattened_from_valid _ _ Hwf "") as Hval.
  rewrite (flattened_from_ext h h') by done.
  rewrite (first_match_ext h h') by done.
  destruct (first_match h attr value _) as [[v k]|] eqn:Hf; [|done].
  pose proof (first_match_valid _ _ _ _ _ _ Hval Hf) as Hv.
  rewrite (valid_child_as_element Hext v Hv).
  destruct (as_element h v) as [e|] eqn:He; [|done].
  destruct (valid_element_props _ _ _ Hv He) as [old Hold].
  rewrite (defaultProps_of_ext Hext _ (valid_element_type _ _ _ Hv He)).
  by rewrite Hold, (props_of_ext Hext _ _ Hold).
Qed.

Lemma config_of_ext h h' a :
  h `prefix_of` h' → valid_props h (props a) = true →
  config_of h' a = config_of h a.
Proof.
  intros Hext. unfold config_of, valid_props.
  destruct (props a) as [l|]; [|done].
  destruct (h !! l) as [o|] eqn:E; [|done].
  by rewrite (lookup_ext Hext _ _ E).
Qed.

(** The result of a call, read off the store the call starts from. *)
Lemma getCmpByAttr_result a w :
  well_formed_call (heap w) a = true →
  memo_ok w = true →
  let attr' := default "data-slot" (attr a) in
  let value' := default "" (value a) in
  let debug' := default false (debug a) in
  ∃ v w' news,
    getCmpByAttr a w = Ok v w'
    ∧ heap w' = heap w ++ news
    ∧ memo_ok w' = true
    ∧ match result_of (heap w) (children a) attr' value' (config_of (heap w) a) with
      | None => v = VNull
      | Some s => ∃ r, v = VRef r
                       ∧ view (heap w') v = Some s
                       ∧ v ∉ child_refs (heap w) (children a)
      end
    ∧ (memo_hit a w = true → w' = w)
    ∧ (memo_hit a w = false →
         (∃ es, console w' = console w ++ (if debug' then es else [])
                ∧ logged attr' value' v es)
         ∧ ∀ r, v = VRef r → (length (heap w) ≤ r)%nat).
Proof.
  intros Hcall Hmemo attr' value' debug'.
  destruct (getCmpByAttr_spec a w Hcall Hmemo)
    as (v & w' & news & Hrun & Hheap & Hmemo' & Hans & Hcfg & Hhit & Hmiss).
  apply andb_true_iff in Hcall as [Hwf Hp].
  exists v, w', news. do 3 (split; [done|]).
  assert (heap w `prefix_of` heap w') as Hext.
  { rewrite Hheap. by apply prefix_app_r. }
  split; [|split].
  - unfold answers in Hans.
    rewrite (expected_result_of _ _ _ _ _ _ Hcfg) in Hans.
    rewrite (result_of_ext (heap w)) in Hans by done.
    fold attr' value'.
    destruct (result_of _ _ _ _ _) as [s|].
    + destruct v as [| | | | |r|]; try done.
      apply andb_true_iff in Hans as [Hview Hnot].
      apply bool_decide_eq_true in Hview, Hnot.
      rewrite (child_refs_ext (heap w)) in Hnot by done. by exists r.
    + by apply bool_decide_eq_true in Hans.
  - intros H. by destruct (Hhit H).
  - intros H. destruct (Hmiss H) as (Hes & _ & Hfresh). done.
Qed.

Lemma first_match_decomposed h attr value pre x post :
  node_matches h attr value x.1 = true →
  Forall (λ y, node_matches h attr value y.1 = false) pre →
  first_match h attr value (pre ++ x :: post) = Some x.
Proof.
  intros Hx. unfold first_match.
  induction 1 as [|y pre Hy Hpre IH]; cbn [List.find app].
  - by rewrite Hx.
  - by rewrite Hy.
Qed.

Lemma first_match_none h attr value xs :
  Forall (λ y, node_matches h attr value y.1 = false) xs →
  first_match h attr value xs = None.
Proof.
  unfold first_match. induction 1 as [|y xs Hy Hxs IH]; [done|].
  cbn [List.find]. by rewrite Hy.
Qed.

(** The first matching child decides the result. *)
Lemma result_of_first h children attr value cfg pre l k post :
  well_formed h children = true →
  flattened h children = pre ++ (VRef l, k) :: post →
  node_matches h attr value (VRef l) = true →
  Forall (λ y, node_matches h attr value y.1 = false) pre →
  ∃ e old,
    h !! l = Some (OElement e)
    ∧ props_of h e = Some old
    ∧ old !! attr = Some (VStr value)
    ∧ result_of h children attr value cfg
      = Some (clone_snapshot e k old cfg (defaultProps_of h (type e))).
Proof.
  intros Hwf Hflat Hl Hpre. unfold result_of. rewrite Hflat.
  rewrite (first_match_decomposed h attr value pre (VRef l, k) post) by done.
  unfold node_matches in Hl. cbn -[lookup] in *.
  destruct (h !! l) as [[|e| |]|]; try done.
  destruct (props_of h e) as [old|] eqn:Eold; [|done].
  apply bool_decide_eq_true in Hl. by exists e, old.
Qed.

Lemma none_match_Forall h attr value xs :
  none_match h attr value xs = true →
  Forall (λ y, node_matches h attr value y.1 = false) xs.
Proof.
  unfold none_match. rewrite forallb_forall, Forall_forall.
  intros H y Hy. apply negb_true_iff, H. by apply list_elem_of_In.
Qed.


(** *** The hook cell *)

Lemma answers_ext h h' c a v p x :
  h `prefix_of` h' →
  well_formed h c = true → valid_props h (Some p) = true →
  answers h c a v p x = true → answers h' c a v p x = true.
Proof.
  intros Hext Hwf Hp. unfold answers.
  rewrite (expected_ext h h') by done.
  destruct (expected h c a v p) as [s|]; [|done].
  destruct x as [| | | | |r|]; try done.
  intros [Hview Hnot]%andb_true_iff. apply andb_true_iff.
  apply bool_decide_eq_true in Hview, Hnot.
  split; apply bool_decide_eq_true.
  - by apply (view_ext Hext).
  - by rewrite (child_refs_ext h h').
Qed.

(** The cell is in order on mount, a call leaves it in order, and it stays
    in order while other code allocates and prints. *)
Lemma memo_ok_mount h out : memo_ok (World h out None) = true.
Proof. done. Qed.

Lemma memo_ok_call a w v w' :
  well_formed_call (heap w) a = true → memo_ok w = true →
  getCmpByAttr a w = Ok v w' → memo_ok w' = true.
Proof.
  intros Hcall Hmemo Hrun.
  destruct (getCmpByAttr_result a w Hcall Hmemo)
    as (v0 & w0 & news & Hrun0 & _ & Hok & _).
  congruence.
Qed.

Lemma memo_ok_alloc w news out :
  memo_ok w = true →
  memo_ok (World (heap w ++ news) out (memoizedState w)) = true.
Proof.
  intros Hmemo. destruct (memoizedState w) as [[cached prevDeps]|] eqn:Ecell.
  - destruct (memo_ok_cell _ _ _ Hmemo Ecell)
      as (c & a0 & v0 & p0 & d0 & -> & Hwf & Hp & Hans).
    assert (heap w `prefix_of` heap w ++ news) as Hext by by apply prefix_app_r.
    unfold memo_ok. cbn [heap memoizedState].
    rewrite (well_formed_ext Hext _ Hwf), (valid_props_ext Hext _ Hp).
    by rewrite (answers_ext _ _ _ _ _ _ _ Hext Hwf Hp Hans).
  - done.
Qed.

(** A call that omits [props] builds a new object for it, which no cell
    has seen: such a call always recomputes. *)
Lemma default_props_never_hit a w :
  props a = None → memo_ok w = true → memo_hit a w = false.
Proof.
  intros Hp Hmemo. unfold memo_hit.
  destruct (memoizedState w) as [[cached prevDeps]|] eqn:Ecell; [|done].
  destruct (memo_ok_cell _ _ _ Hmemo Ecell)
    as (c & a0 & v0 & p0 & d0 & -> & _ & Hvp & _).
  apply valid_props_lt in Hvp.
  unfold deps_of, props_ref. rewrite Hp. cbn [default areHookInputsEqual].
  replace (Object_is (Leaf (VRef (length (heap w)))) (Leaf (VRef p0)))
    with false; [by rewrite !andb_false_r|].
  symmetry. apply bool_decide_eq_false. cbn. intros [= ?]. lia.
Qed.

(** *** The examples of the specification *)

Example select_body :
  content_of (getCmpByAttr {| children := three_slots; attr := None;
                              value := Some "body"; props := None;
                              debug := None |} page)
  = Some (Snapshot (VStr "div") (Some ".1") VNull {[ "data-slot" := VStr "body" ]}).
Proof. by vm_compute. Qed.

Example select_missing :
  ∃ w', getCmpByAttr {| children := three_slots; attr := None;
                        value := Some "missing"; props := None;
                        debug := None |} page = Ok VNull w'.
Proof. eexists. by vm_compute. Qed.

Example select_header_with_className :
  content_of (getCmpByAttr {| children := three_slots; attr := None;
                              value := Some "header"; props := Some 9;
                              debug := None |} page)
  = Some (Snapshot (VStr "div") (Some ".0") VNull
            (<[ "className" := VStr "x" ]> {[ "data-slot" := VStr "header" ]})).
Proof. by vm_compute. Qed.

(** Strict equality does not coerce, and a prefix is not a match. *)
Example no_coercion :
  strict_equals (VNum 5) (VStr "5") = false
  ∧ strict_equals (VStr "head") (VStr "header") = false
  ∧ strict_equals VUndefined (VStr "") = false.
Proof. done. Qed.

(** ** The claims *)






(** C3: when no child matches, the call returns [null]; it does not throw. *)
Theorem getCmpByAttr_no_match_null a w :
  let attr' := default "data-slot" (attr a) in
  let value' := default "" (value a) in
  well_formed_call (heap w) a = true →
  memo_ok w = true →
  none_match (heap w) attr' value' (flattened (heap w) (children a)) = true →
  ∃ w', getCmpByAttr a w = Ok VNull w'.
Proof.
  intros attr' value' Hcall Hmemo Hnone.
  destruct (getCmpByAttr_result a w Hcall Hmemo)
    as (v & w' & news & Hrun & _ & _ & Hres & _).
  fold attr' value' in Hres. unfold result_of in Hres.
  rewrite (first_match_none _ _ _ _ (none_match_Forall _ _ _ _ Hnone)) in Hres.
  subst v. by exists w'.
Qed.

Lemma getCmpByAttr_no_match_null_witness :
  ∃ w', getCmpByAttr (select (Some "missing") (Some 9) (Some true)) page
        = Ok VNull w'.
Proof.
  apply (getCmpByAttr_no_match_null (select (Some "missing") (Some 9) (Some true))
           page); vm_compute; reflexivity.
Defined.







Lemma view_null h : view h VNull = None.
Proof. done. Qed.

(** Two results that answer the same question have the same content. *)
Lemma same_content_results (res : option snapshot) h1 v1 h2 v2 (X1 X2 : val → Prop) :
  match res with
  | None => v1 = VNull
  | Some s => ∃ r, v1 = VRef r ∧ view h1 v1 = Some s ∧ X1 v1
  end →
  match res with
  | None => v2 = VNull
  | Some s => ∃ r, v2 = VRef r ∧ view h2 v2 = Some s ∧ X2 v2
  end →
  same_content h1 v1 h2 v2.
Proof.
  destruct res as [s|].
  - intros (r1 & -> & Hv1 & _) (r2 & -> & Hv2 & _).
    split; [done|]. by rewrite Hv1, Hv2.
  - by intros -> ->.
Qed.




(** C7, as the code has it: the call returns on every input of its
    declared types, that is children made of React elements, portals,
    strings, numbers, booleans, [null], [undefined] and nested arrays of
    these, and [extraProps] a plain object, provided the [key] entry of
    [extraProps], if there is one, is a primitive (the key of the clone is
    ['' + key], which can throw on an object): nothing is thrown, and a
    child that is not an element is passed over by the valid-element check,
    which keeps the property read from being reached. *)
Theorem getCmpByAttr_total a w :
  well_formed_call (heap w) a = true →
  primitive_key (config_of (heap w) a) = true →
  (∃ v w', getCmpByAttr a w = Ok v w')
  ∧ ∀ x w0,
      as_element (heap w0) x = None →
      isValidElement x w0 = Ok false w0
      ∧ ∀ attr value, matches attr value x w0 = Ok false w0.
Proof.
  intros [Hwf Hp]%andb_true_iff _. split.
  - set (w1 := match props a with
               | Some _ => w
               | None => set_heap (heap w ++ [OObject ∅]) w
               end).
    assert (getCmpByAttr a w
            = useMemo (create (children a) (default "data-slot" (attr a))
                         (default "" (value a)) (props_ref a w)
                         (default false (debug a)))
                      (deps_of a w) w1) as ->.
    { unfold getCmpByAttr, bind, w1, deps_of, props_ref.
      by destruct (props a). }
    assert (heap w `prefix_of` heap w1) as Hext1.
    { unfold w1. destruct (props a); [done|]. by apply prefix_app_r. }
    assert (valid_props (heap w1) (Some (props_ref a w)) = true) as Hp1.
    { unfold w1, props_ref. destruct (props a) as [l|]; [done|].
      cbn -[lookup]. by rewrite list_lookup_middle. }
    destruct (create_answers w1 (children a) (default "data-slot" (attr a))
                (default "" (value a)) (props_ref a w)
                (default false (debug a)) (well_formed_ext Hext1 _ Hwf) Hp1)
      as (v & w' & news & es & Hrun & _).
    unfold useMemo. rewrite Hrun.
    destruct (memoizedState w1) as [[cached prevDeps]|]; [|by eauto].
    destruct (areHookInputsEqual _ _); by eauto.
  - intros x w0 Hx. split; [|intros; by apply matches_not_element].
    unfold isValidElement. destruct x as [| | | | |l|]; try done.
    cbn -[lookup] in Hx. by destruct (heap w0 !! l) as [[]|].
Qed.

Lemma getCmpByAttr_total_witness :
  (∃ v w', getCmpByAttr (select (Some "header") (Some 10) (Some true)) page
           = Ok v w')
  ∧ ∀ x w0,
      as_element (heap w0) x = None →
      isValidElement x w0 = Ok false w0
      ∧ ∀ attr value, matches attr value x w0 = Ok false w0.
Proof.
  apply (getCmpByAttr_total (select (Some "header") (Some 10) (Some true)) page);
    vm_compute; reflexivity.
Defined.

Lemma well_formed_call_ext h h' a :
  h `prefix_of` h' →
  well_formed_call h a = true → well_formed_call h' a = true.
Proof.
  intros Hext [Hwf Hp]%andb_true_iff. apply andb_true_iff.
  split; [by apply (well_formed_ext Hext) | by apply (valid_props_ext Hext)].
Qed.

(** C7 as stated fails on a child that is a plain object, which is a
    non-element, non-nullish child without a property mapping:
    [React.Children.toArray] throws on it before the search starts. *)
Lemma getCmpByAttr_plain_object_child_throws :
  heap page !! 9 = Some (OObject {[ "className" := VStr "x" ]})
  ∧ getCmpByAttr {| children := Arr 17 [Leaf (VRef 1); Leaf (VRef 9)];
                    attr := None; value := Some "header";
                    props := None; debug := None |} page
    = Throw (Error "Objects are not valid as a React child").
Proof. split; by vm_compute. Qed.










(** ** Further properties of [getCmpByAttr] *)

(** *** The call, hit and miss *)

Lemma getCmpByAttr_unfold a w :
  getCmpByAttr a w
  = useMemo (create (children a) (default "data-slot" (attr a))
               (default "" (value a)) (props_ref a w)
               (default false (debug a)))
            (deps_of a w) (call_world a w).
Proof.
  unfold getCmpByAttr, bind, call_world, deps_of, props_ref.
  by destruct (props a).
Qed.

Lemma call_world_cell a w : memoizedState (call_world a w) = memoizedState w.
Proof. unfold call_world. by destruct (props a). Qed.

Lemma call_world_console a w : console (call_world a w) = console w.
Proof. unfold call_world. by destruct (props a). Qed.

Lemma call_world_given a w l : props a = Some l → call_world a w = w.
Proof. unfold call_world. by intros ->. Qed.

(** A call that finds its dependencies changed (or no cell) runs the
    function passed to [useMemo] and remembers what it returned. *)
Lemma getCmpByAttr_miss a w :
  memo_hit a w = false →
  getCmpByAttr a w
  = match create (children a) (default "data-slot" (attr a))
            (default "" (value a)) (props_ref a w)
            (default false (debug a)) (call_world a w) with
    | Ok v w' => Ok v (remember v (deps_of a w) w')
    | Throw e => Throw e
    end.
Proof.
  intros Hmiss. rewrite getCmpByAttr_unfold. unfold useMemo, memo_hit in *.
  rewrite call_world_cell.
  destruct (memoizedState w) as [[cached prevDeps]|]; [|done].
  by rewrite Hmiss.
Qed.

(** A call that finds its dependencies unchanged returns the cached value. *)
Lemma getCmpByAttr_hit a w :
  memo_hit a w = true →
  ∃ cached prevDeps,
    memoizedState w = Some (cached, prevDeps)
    ∧ areHookInputsEqual (deps_of a w) prevDeps = true
    ∧ getCmpByAttr a w = Ok cached (call_world a w).
Proof.
  intros Hhit. rewrite getCmpByAttr_unfold. unfold useMemo, memo_hit in *.
  rewrite call_world_cell.
  destruct (memoizedState w) as [[cached prevDeps]|]; [|done].
  exists cached, prevDeps. by rewrite Hhit.
Qed.

Lemma areHookInputsEqual_refl deps : areHookInputsEqual deps deps = true.
Proof.
  induction deps as [|d deps IH]; [done|]. cbn [areHookInputsEqual].
  rewrite IH, andb_true_r. by apply bool_decide_eq_true.
Qed.

(** X1: a call repeated with the same arguments, [props] given, returns the
    very node the first call returned and changes nothing: no allocation,
    no log, the same cell. *)
Theorem getCmpByAttr_repeat a w l v w' :
  props a = Some l →
  getCmpByAttr a w = Ok v w' →
  getCmpByAttr a w' = Ok v w'.
Proof.
  intros Hp Hrun.
  assert (∀ w0, deps_of a w0 = deps_of a w) as Hdeps.
  { intros w0. unfold deps_of, props_ref. by rewrite Hp. }
  destruct (memo_hit a w) eqn:Ehit.
  - destruct (getCmpByAttr_hit a w Ehit) as (cached & prevDeps & Hcell & Heq & Hrun').
    rewrite (call_world_given a w l Hp) in Hrun'.
    rewrite Hrun' in Hrun. by injection Hrun as <- <-.
  - rewrite (getCmpByAttr_miss a w Ehit) in Hrun.
    destruct (create _ _ _ _ _ _) as [v0 w0|]; [|done].
    injection Hrun as <- <-.
    assert (memo_hit a (remember v0 (deps_of a w) w0) = true) as Hhit.
    { unfold memo_hit, remember. cbn [memoizedState].
      rewrite Hdeps. apply areHookInputsEqual_refl. }
    destruct (getCmpByAttr_hit _ _ Hhit) as (cached & prevDeps & Hcell & _ & ->).
    rewrite (call_world_given _ _ l Hp).
    cbn [remember memoizedState] in Hcell. by injection Hcell as <- _.
Qed.

Lemma getCmpByAttr_repeat_witness :
  getCmpByAttr (select (Some "header") (Some 9) (Some true))
    (after (select (Some "header") (Some 9) (Some true)) page)
  = Ok (VRef 24) (after (select (Some "header") (Some 9) (Some true)) page).
Proof.
  apply (getCmpByAttr_repeat (select (Some "header") (Some 9) (Some true)) page 9);
    vm_compute; reflexivity.
Defined.

(** After a call, the cell holds what the call returned, for the
    dependencies of the call. *)
Lemma cell_after_call a w v w' :
  well_formed_call (heap w) a = true →
  memo_ok w = true →
  getCmpByAttr a w = Ok v w' →
  memoizedState w' = Some (v, deps_of a w)
  ∧ memo_ok w' = true
  ∧ heap w `prefix_of` heap w'.
Proof.
  intros Hcall Hmemo Hrun.
  destruct (getCmpByAttr_spec a w Hcall Hmemo)
    as (v0 & w0 & news & Hrun0 & Hheap & Hok & _ & _ & Hhit & Hmiss).
  rewrite Hrun in Hrun0. injection Hrun0 as <- <-.
  split; [|split; [done|]].
  - destruct (memo_hit a w).
    + destruct (Hhit eq_refl) as [Hcell ->]. done.
    + by destruct (Hmiss eq_refl) as (_ & Hcell & _).
  - rewrite Hheap. by apply prefix_app_r.
Qed.

(** X2: the cache key. After a call, the next call is answered from the
    cell exactly when its [children] are the same value (the same array,
    not an array with the same items), its [attr], [value] and [debug] are
    the same once defaulted, and its [props] is the same object. *)
Theorem memo_hit_after_call a a2 w v w' :
  well_formed_call (heap w) a = true →
  memo_ok w = true →
  getCmpByAttr a w = Ok v w' →
  memo_hit a2 w' = true
  ↔ ident (children a2) = ident (children a)
    ∧ default "data-slot" (attr a2) = default "data-slot" (attr a)
    ∧ default "" (value a2) = default "" (value a)
    ∧ props_ref a2 w' = props_ref a w
    ∧ default false (debug a2) = default false (debug a).
Proof.
  intros Hcall Hmemo Hrun.
  destruct (cell_after_call a w v w' Hcall Hmemo Hrun) as (Hcell & _ & _).
  unfold memo_hit. rewrite Hcell. unfold deps_of.
  cbn [areHookInputsEqual]. unfold Object_is. cbn [ident].
  rewrite !andb_true_iff, !bool_decide_eq_true. split.
  - intros (H1 & H2 & H3 & H4 & H5 & _). repeat split; congruence.
  - intros (H1 & H2 & H3 & H4 & H5). rewrite H1, H2, H3, H4, H5. done.
Qed.

Lemma memo_hit_after_call_witness :
  memo_hit (select (Some "header") (Some 9) None)
    (after (select (Some "header") (Some 9) None) page) = true
  ↔ ident page_children = ident page_children
    ∧ "data-slot" = "data-slot"
    ∧ "header" = "header"
    ∧ 9 = 9
    ∧ false = false.
Proof.
  apply (memo_hit_after_call (select (Some "header") (Some 9) None)
           (select (Some "header") (Some 9) None) page (VRef 24));
    vm_compute; reflexivity.
Defined.

(** X3: [debug] is a dependency. A call that has [debug] set, after the
    same call without it, recomputes and prints its one entry although
    nothing that decides the result has changed; the content of the result
    is the same. *)
Theorem getCmpByAttr_debug_switched_on a w v w' :
  let attr' := default "data-slot" (attr a) in
  let value' := default "" (value a) in
  well_formed_call (heap w) a = true →
  memo_ok w = true →
  default false (debug a) = false →
  getCmpByAttr a w = Ok v w' →
  ∃ v2 w2 es,
    getCmpByAttr (with_debug a (Some true)) w' = Ok v2 w2
    ∧ console w2 = console w' ++ es
    ∧ logged attr' value' v2 es
    ∧ same_content (heap w') v (heap w2) v2.
Proof.
  intros attr' value' Hcall Hmemo Hd Hrun.
  destruct (cell_after_call a w v w' Hcall Hmemo Hrun) as (Hcell & Hmemo' & Hext).
  destruct (getCmpByAttr_result a w Hcall Hmemo)
    as (v0 & w0 & news & Hrun0 & _ & _ & Hres & _).
  rewrite Hrun in Hrun0. injection Hrun0 as <- <-.
  assert (memo_hit (with_debug a (Some true)) w' = false) as Hmiss.
  { unfold memo_hit. rewrite Hcell. unfold deps_of.
    cbn [areHookInputsEqual with_debug debug default]. rewrite Hd.
    replace (Object_is (Leaf (VBool true)) (Leaf (VBool false))) with false by done.
    by rewrite !andb_false_r. }
  pose proof (well_formed_call_ext _ _ _ Hext Hcall) as Hcall'.
  destruct (getCmpByAttr_result (with_debug a (Some true)) w' Hcall' Hmemo')
    as (v2 & w2 & news2 & Hrun2 & _ & _ & Hres2 & _ & Hmiss2).
  destruct (Hmiss2 Hmiss) as [(es & Hcons & Hlog) _].
  exists v2, w2, es. do 3 (split; [done|]).
  apply andb_true_iff in Hcall as [Hwf Hp].
  cbn [with_debug children attr value] in Hres2.
  rewrite (result_of_ext (heap w) (heap w')) in Hres2 by done.
  replace (config_of (heap w') (with_debug a (Some true)))
    with (config_of (heap w) a) in Hres2
    by (symmetry; by apply (config_of_ext (heap w) (heap w') a)).
  exact (same_content_results _ _ _ _ _
           (λ x, x ∉ child_refs (heap w) (children a))
           (λ x, x ∉ child_refs (heap w') (children a)) Hres Hres2).
Qed.

Lemma getCmpByAttr_debug_switched_on_witness :
  ∃ v2 w2 es,
    getCmpByAttr (with_debug (select (Some "body") (Some 9) None) (Some true))
      (after (select (Some "body") (Some 9) None) page) = Ok v2 w2
    ∧ console w2 = console (after (select (Some "body") (Some 9) None) page) ++ es
    ∧ logged "data-slot" "body" v2 es
    ∧ same_content (heap (after (select (Some "body") (Some 9) None) page))
        (VRef 24) (heap w2) v2.
Proof.
  apply (getCmpByAttr_debug_switched_on (select (Some "body") (Some 9) None)
           page (VRef 24) (after (select (Some "body") (Some 9) None) page));
    vm_compute; reflexivity.
Defined.

Lemma view_allocated h v s : view h v = Some s → ∃ r, v = VRef r ∧ (r < length h)%nat.
Proof.
  unfold view, as_element. destruct v as [| | | | |r|]; try done.
  destruct (h !! r) as [o|] eqn:E; [|done].
  intros _. exists r. split; [done|]. by eapply lookup_lt_Some.
Qed.

Lemma config_of_omitted h a : props a = None → config_of h a = ∅.
Proof. unfold config_of. by intros ->. Qed.

(** X4: a call that omits [props] builds a new [{}] for it, and [props] is
    a dependency: the call is never answered from the cell. Two such calls
    in a row both recompute, and when a child matches they return two
    different nodes with the same content. *)
Theorem getCmpByAttr_props_omitted a w :
  props a = None →
  well_formed_call (heap w) a = true →
  memo_ok w = true →
  ∃ v1 w1 v2 w2,
    getCmpByAttr a w = Ok v1 w1
    ∧ getCmpByAttr a w1 = Ok v2 w2
    ∧ memo_hit a w = false
    ∧ memo_hit a w1 = false
    ∧ same_content (heap w1) v1 (heap w2) v2
    ∧ (v1 ≠ VNull → v1 ≠ v2).
Proof.
  intros Hp Hcall Hmemo.
  destruct (getCmpByAttr_result a w Hcall Hmemo)
    as (v1 & w1 & news1 & Hrun1 & Hheap1 & Hmemo1 & Hres1 & _).
  assert (heap w `prefix_of` heap w1) as Hext.
  { rewrite Hheap1. by apply prefix_app_r. }
  pose proof (well_formed_call_ext _ _ _ Hext Hcall) as Hcall1.
  destruct (getCmpByAttr_result a w1 Hcall1 Hmemo1)
    as (v2 & w2 & news2 & Hrun2 & _ & _ & Hres2 & _ & Hmiss2).
  pose proof (default_props_never_hit a w Hp Hmemo) as Hmiss.
  pose proof (default_props_never_hit a w1 Hp Hmemo1) as Hmiss1.
  exists v1, w1, v2, w2. do 4 (split; [done|]).
  apply andb_true_iff in Hcall as [Hwf _].
  rewrite (result_of_ext (heap w) (heap w1)) in Hres2 by done.
  rewrite !(config_of_omitted _ a Hp) in *.
  split.
  - exact (same_content_results _ _ _ _ _
             (λ x, x ∉ child_refs (heap w) (children a))
             (λ x, x ∉ child_refs (heap w1) (children a)) Hres1 Hres2).
  - intros Hnn <-. destruct (result_of _ _ _ _ _) as [s|]; [|done].
    destruct Hres1 as (r & -> & Hview & _).
    destruct (view_allocated _ _ _ Hview) as (r' & [= <-] & Hlt).
    destruct (Hmiss2 Hmiss1) as [_ Hfresh].
    specialize (Hfresh r eq_refl). lia.
Qed.

Lemma getCmpByAttr_props_omitted_witness :
  ∃ v1 w1 v2 w2,
    getCmpByAttr (select (Some "header") None None) page = Ok v1 w1
    ∧ getCmpByAttr (select (Some "header") None None) w1 = Ok v2 w2
    ∧ memo_hit (select (Some "header") None None) page = false
    ∧ memo_hit (select (Some "header") None None) w1 = false
    ∧ same_content (heap w1) v1 (heap w2) v2
    ∧ (v1 ≠ VNull → v1 ≠ v2).
Proof.
  apply (getCmpByAttr_props_omitted (select (Some "header") None None) page);
    vm_compute; reflexivity.
Defined.

(** *** What a call that recomputes builds *)




Lemma call_world_ext a w : heap w `prefix_of` heap (call_world a w).
Proof. unfold call_world. destruct (props a); [done|]. by apply prefix_app_r. Qed.


Lemma call_world_length a w :
  length (heap (call_world a w))
  = length (heap w) + match props a with Some _ => 0 | None => 1 end.
Proof.
  unfold call_world. destruct (props a); cbn; [lia|].
  rewrite length_app. cbn. lia.
Qed.











Lemma starts_with_dot_app s t :
  starts_with_dot s = true → starts_with_dot (s +:+ t) = true.
Proof. by destruct s. Qed.

Lemma flattened_from_keys h n :
  ∀ name, name = "" ∨ starts_with_dot name = true →
          Forall (λ x, starts_with_dot x.2 = true) (flattened_from h n name).
Proof.
  induction n as [v|l0 xs IH] using node_ind_nested; intros name Hname.
  - assert (starts_with_dot
              (if decide (name = "")
               then "." +:+ Children.getElementKey h (Leaf v) 0 else name) = true)
      as Hkey.
    { destruct (decide (name = "")) as [->|Hne]; [done|]. by destruct Hname. }
    destruct v; cbn [flattened_from]; repeat constructor; done.
  - rewrite flattened_from_Arr.
    assert (starts_with_dot (next_prefix name) = true) as Hprefix.
    { unfold next_prefix. destruct (decide (name = "")) as [->|Hne]; [done|].
      destruct Hname as [?|Hdot]; [done|]. by apply starts_with_dot_app. }
    generalize 0. revert Hprefix. generalize (next_prefix name). intros prefix Hprefix.
    induction xs as [|x xs IHxs]; intros i; [constructor|].
    apply Forall_cons in IH as [IHx IH].
    cbn [flattened_each]. apply Forall_app. split; [|by apply IHxs].
    apply IHx. right. by apply starts_with_dot_app.
Qed.

(** X8: the returned node does not keep the key of the matched child.
    Unless [extraProps] gives one, its key is the path [toArray] computes
    from the position of the child, which is never absent and always
    starts with a dot. *)
Theorem getCmpByAttr_key_is_a_path a w pre l k post :
  let attr' := default "data-slot" (attr a) in
  let value' := default "" (value a) in
  well_formed_call (heap w) a = true →
  memo_ok w = true →
  config_of (heap w) a !! "key" = None →
  flattened (heap w) (children a) = pre ++ (VRef l, k) :: post →
  node_matches (heap w) attr' value' (VRef l) = true →
  none_match (heap w) attr' value' pre = true →
  ∃ r w' s,
    getCmpByAttr a w = Ok (VRef r) w'
    ∧ view (heap w') (VRef r) = Some s
    ∧ s_key s = Some k
    ∧ starts_with_dot k = true.
Proof.
  intros attr' value' Hcall Hmemo Hkey Hflat Hl Hpre.
  destruct (getCmpByAttr_result a w Hcall Hmemo)
    as (v & w' & news & Hrun & _ & _ & Hres & _).
  apply andb_true_iff in Hcall as [Hwf _].
  destruct (result_of_first (heap w) (children a) attr' value'
              (config_of (heap w) a) pre l k post Hwf Hflat Hl
              (none_match_Forall _ _ _ _ Hpre))
    as (e & old & He & Hold & Hattr & Hresult).
  fold attr' value' in Hres. rewrite Hresult in Hres.
  destruct Hres as (r & -> & Hview & _).
  exists r, w', (clone_snapshot e k old (config_of (heap w) a)
                   (defaultProps_of (heap w) (type e))).
  do 2 (split; [done|]). split.
  - cbn [clone_snapshot s_key]. unfold hasValidKey, Get. by rewrite Hkey.
  - pose proof (flattened_from_keys (heap w) (children a) "" (or_introl eq_refl))
      as Hkeys.
    fold (flattened (heap w) (children a)) in Hkeys. rewrite Hflat in Hkeys.
    apply Forall_app in Hkeys as [_ Hkeys]. by apply Forall_cons in Hkeys as [? _].
Qed.

Lemma getCmpByAttr_key_is_a_path_witness :
  ∃ r w' s,
    getCmpByAttr (select (Some "footer") (Some 9) None) page = Ok (VRef r) w'
    ∧ view (heap w') (VRef r) = Some s
    ∧ s_key s = Some ".4:0"
    ∧ starts_with_dot ".4:0" = true.
Proof.
  apply (getCmpByAttr_key_is_a_path (select (Some "footer") (Some 9) None) page
           [(VRef 1, ".0"); (VStr "text", ".1"); (VRef 3, ".2")] 5 ".4:0"
           [(VRef 7, ".4:1"); (VRef 8, ".5"); (VNum 7, ".6"); (VRef 13, ".8")]);
    vm_compute; reflexivity.
Defined.

(** *** A child that is a plain object *)





(** X10: with nothing to search ([children] is [undefined], [null], a
    boolean, an empty array, or arrays of these) a call that recomputes
    returns [null], allocates nothing besides the [{}] of an omitted
    [props], and with [debug] set prints the warning that names [attr] and
    [value]. *)
Theorem getCmpByAttr_no_children a w :
  let attr' := default "data-slot" (attr a) in
  let value' := default "" (value a) in
  well_formed_call (heap w) a = true →
  memo_hit a w = false →
  leaves (children a) = [] →
  getCmpByAttr a w
  = Ok VNull
      (remember VNull (deps_of a w)
         (World (heap (call_world a w))
                (console w ++
                   if default false (debug a)
                   then [Warn (not_found attr' value')] else [])
                (memoizedState w))).
Proof.
  intros attr' value' [Hwf Hp]%andb_true_iff Hmiss Hleaves.
  pose proof (call_world_ext a w) as Hext.
  assert (flattened (heap (call_world a w)) (children a) = []) as Hflat.
  { apply (fmap_nil_inv fst). unfold flattened. by rewrite flattened_leaves. }
  rewrite (getCmpByAttr_miss a w Hmiss).
  rewrite create_no_match.
  - rewrite Hflat. cbn [copies]. fold attr' value'.
    by rewrite app_nil_r, call_world_console, call_world_cell.
  - by apply (well_formed_ext Hext).
  - by rewrite Hflat.
Qed.

Lemma getCmpByAttr_no_children_witness :
  getCmpByAttr {| children := Leaf VUndefined; attr := Some "slot";
                  value := Some "header"; props := None; debug := Some true |}
    page
  = Ok VNull
      (World (page_heap ++ [OObject ∅])
             [Warn "No component found with attr slot and value header"]
             (Some (VNull, [Leaf VUndefined; Leaf (VStr "slot");
                            Leaf (VStr "header"); Leaf (VRef 18);
                            Leaf (VBool true)]))).
Proof.
  apply (getCmpByAttr_no_children
           {| children := Leaf VUndefined; attr := Some "slot";
              value := Some "header"; props := None; debug := Some true |} page);
    vm_compute; reflexivity.
Defined.
